(** * apm-queue: the Pub/Sub Lite consumer and the Azure SASL mechanism

    A shallow embedding of [pubsublite/consumer.go] and
    [kafka/sasl/azure/oauth.go], and the properties of the delivery
    policy, of the supervisor's life cycle and of configuration
    validation proved over it.

    Go values are modelled as follows: [string] as [string], [[]byte] as
    [list byte], [int] and [int64] as [Z] with the 64-bit wrap-around
    written out, [map[string]string] and [sync.Map] as [gmap], an
    interface or function value that may be [nil] as an [option], and
    [error] as [option error] where [None] is [nil]. *)

From Stdlib Require Import ZArith.
From Stdlib.Strings Require Import Byte.
From stdpp Require Import base option list strings gmap.

Local Open Scope string_scope.
Local Open Scope Z_scope.
Local Open Scope list_scope.

(** ** Errors (package [errors] and [fmt.Errorf]) *)

(** An error value. [errors.New] allocates a fresh value on every call, so
    the sentinel of the transport, which is compared by identity, gets a
    constructor of its own; [otherError] stands for any error made by a
    collaborator (decoder, processor, transport, credential). *)
#[warnings="-register-all"]
Inductive error : Type :=
  | errorString (s : string)
  | otherError (s : string)
  | wrapError (msg : string) (inner : error)
  | joinError (errs : list error)
  | ErrBackendUnavailable.

(** [errors.Is(err, pscompat.ErrBackendUnavailable)] on a non-nil [err]:
    the tree of [Unwrap] is searched depth first for the sentinel. *)
Fixpoint is_backend_unavailable (e : error) : bool :=
  match e with
  | ErrBackendUnavailable => true
  | wrapError _ inner => is_backend_unavailable inner
  | joinError errs =>
      (fix any (l : list error) : bool :=
         match l with
         | [] => false
         | x :: l' => is_backend_unavailable x || any l'
         end) errs
  | errorString _ | otherError _ => false
  end.

(** [errors.Is] with the sentinel as target; a nil error matches nothing. *)
Definition errors_Is_unavailable (err : option error) : bool :=
  match err with
  | None => false
  | Some e => is_backend_unavailable e
  end.

(** [errors.Join]: nil values are dropped, and the result is nil when
    nothing is left. *)
Definition errors_Join (errs : list (option error)) : option error :=
  match omap id errs with
  | [] => None
  | es => Some (joinError es)
  end.

(** ** Delivery types *)

(** Modelled from the spec: [apmqueue.DeliveryType] and its two constants
    are declared in the root package, which is not part of the sources at
    hand.  The consumer only ever compares a delivery value with the two
    constants and has a [default] branch, so the type is a numeric one
    with further values: those are [otherDeliveryType]. *)
Inductive DeliveryType : Type :=
  | AtMostOnceDeliveryType
  | AtLeastOnceDeliveryType
  | otherDeliveryType (v : N).

(** ** Configuration *)

Section Config.

(** The collaborators are interfaces; validation only looks at whether
    they are nil. *)
Context {Decoder Logger Processor ClientOption TracerProvider : Type}.

Record ConsumerConfig : Type := {
  Region : string;
  Project : string;
  Topics : list string;
  cfgDecoder : option Decoder;
  cfgLogger : option Logger;
  cfgProcessor : option Processor;
  Delivery : DeliveryType;
  ClientOpts : list ClientOption;
  cfgTracerProvider : option TracerProvider
}.

(** [x == nil] for an interface or pointer value. *)
Definition is_nil {A : Type} (x : option A) : bool :=
  match x with None => true | Some _ => false end.

(** [append(errs, errors.New(msg))] under a condition. *)
Definition append_if (cond : bool) (msg : string) (errs : list error)
  : list error :=
  if cond then errs ++ [errorString msg] else errs.

(** The slice [errs] as [ConsumerConfig.Validate] has built it when it
    reaches its [return]. *)
Definition Validate_errs (cfg : ConsumerConfig) : list error :=
  let errs := [] in
  let errs := append_if (bool_decide (length (Topics cfg) = 0%nat))
                "pubsublite: at least one topic must be set" errs in
  let errs := append_if (bool_decide (Project cfg = ""))
                "pubsublite: project must be set" errs in
  let errs := append_if (bool_decide (Region cfg = ""))
                "pubsublite: region must be set" errs in
  let errs := append_if (is_nil (cfgDecoder cfg))
                "pubsublite: decoder must be set" errs in
  let errs := append_if (is_nil (cfgLogger cfg))
                "pubsublite: logger must be set" errs in
  let errs := append_if (is_nil (cfgProcessor cfg))
                "pubsublite: processor must be set" errs in
  let errs :=
    match Delivery cfg with
    | AtLeastOnceDeliveryType => errs
    | AtMostOnceDeliveryType => errs
    | _ => append_if true "pubsublite: delivery is not valid" errs
    end in
  errs.

(** [ConsumerConfig.Validate]. *)
Definition Validate (cfg : ConsumerConfig) : option error :=
  errors_Join (Some <$> Validate_errs cfg).

(** *** The requirements as the specification lists them *)

(** A requirement of the specification: what must hold, and the entry
    reported when it does not. *)
Inductive requirement : Type :=
  | ReqTopics | ReqProject | ReqRegion | ReqDecoder | ReqLogger
  | ReqProcessor | ReqDelivery.

Definition requirements : list requirement :=
  [ReqTopics; ReqProject; ReqRegion; ReqDecoder; ReqLogger; ReqProcessor;
   ReqDelivery].

(** Whether a configuration meets a requirement. *)
Definition meets (cfg : ConsumerConfig) (r : requirement) : Prop :=
  match r with
  | ReqTopics => Topics cfg ≠ []
  | ReqProject => Project cfg ≠ ""
  | ReqRegion => Region cfg ≠ ""
  | ReqDecoder => cfgDecoder cfg ≠ None
  | ReqLogger => cfgLogger cfg ≠ None
  | ReqProcessor => cfgProcessor cfg ≠ None
  | ReqDelivery => Delivery cfg = AtMostOnceDeliveryType
                   ∨ Delivery cfg = AtLeastOnceDeliveryType
  end.

(** The same as a test. *)
Definition meetsb (cfg : ConsumerConfig) (r : requirement) : bool :=
  match r with
  | ReqTopics => match Topics cfg with [] => false | _ => true end
  | ReqProject => negb (bool_decide (Project cfg = ""))
  | ReqRegion => negb (bool_decide (Region cfg = ""))
  | ReqDecoder => negb (is_nil (cfgDecoder cfg))
  | ReqLogger => negb (is_nil (cfgLogger cfg))
  | ReqProcessor => negb (is_nil (cfgProcessor cfg))
  | ReqDelivery =>
      match Delivery cfg with
      | AtMostOnceDeliveryType | AtLeastOnceDeliveryType => true
      | otherDeliveryType _ => false
      end
  end.

(** The entry that reports a violated requirement. *)
Definition entry (r : requirement) : error :=
  errorString
    match r with
    | ReqTopics => "pubsublite: at least one topic must be set"
    | ReqProject => "pubsublite: project must be set"
    | ReqRegion => "pubsublite: region must be set"
    | ReqDecoder => "pubsublite: decoder must be set"
    | ReqLogger => "pubsublite: logger must be set"
    | ReqProcessor => "pubsublite: processor must be set"
    | ReqDelivery => "pubsublite: delivery is not valid"
    end.

(** The requirements a configuration violates, in the order of the
    specification. *)
Definition violated (cfg : ConsumerConfig) : list requirement :=
  filter (λ r, meetsb cfg r = false) requirements.

End Config.


(** ** Messages, contexts and log records *)

(** [pubsub.Message], as far as the consumer reads it. *)
Record Message : Type := {
  ID : string;
  Data : list byte;
  Attributes : gmap string string
}.

(** [pscompat.MessageMetadata]. *)
Record MessageMetadata : Type := {
  Partition : Z;
  Offset : Z
}.

(** A [context.Context]: a root, or one derived by one of the calls the
    consumer makes. *)
Inductive Ctx : Type :=
  | ctxRoot (name : string)
  | ctxWithCancel (parent : Ctx)
  | ctxErrgroup (parent : Ctx)
  | ctxWithMetadata (parent : Ctx) (meta : gmap string string).

(** The fields of a [zap] log record. *)
Inductive Field : Type :=
  | zapError (e : error)
  | zapByteString (key : string) (v : list byte)
  | zapInt64 (key : string) (v : Z)
  | zapInt (key : string) (v : Z)
  | zapString (key : string) (v : string)
  | zapAny (key : string) (v : gmap string string).

Inductive Level : Type := InfoLevel | ErrorLevel.

(** A [*zap.Logger]: its name segments and the fields added by [With]. *)
Record Logger : Type := {
  loggerName : list string;
  loggerFields : list Field
}.

Definition Named (l : Logger) (n : string) : Logger :=
  {| loggerName := loggerName l ++ [n]; loggerFields := loggerFields l |}.

Definition With (l : Logger) (fs : list Field) : Logger :=
  {| loggerName := loggerName l; loggerFields := loggerFields l ++ fs |}.

(** Go's [int] on a 64-bit platform: the result of an addition wraps. *)
Definition wrap_int (z : Z) : Z :=
  (z + 2 ^ 63) `mod` 2 ^ 64 - 2 ^ 63.

(** ** The per-subscription consumer *)

Section PerMessage.

(** [model.APMEvent], the state of the batch processor (it is an
    interface whose calls may depend on earlier ones) and the client of
    the transport are left open. *)
Context {APMEvent PS Client : Type}.

(** [pscompat.ParseMessageMetadata], which belongs to the transport:
    [None] is a nil metadata. *)
Variable ParseMessageMetadata : string → option MessageMetadata.

(** What a call of the handler does to the outside, in order. *)
Inductive Effect : Type :=
  | EvAck (id : string)
  | EvNack (id : string)
  | EvLog (lg : Logger) (lvl : Level) (msg : string) (fields : list Field)
  | EvProcessBatch (ctx : Ctx) (batch : list APMEvent)
  | EvLoadOrStore (key : string) (v : Z)
  | EvStore (key : string) (v : Z)
  | EvDelete (key : string).

(** [Decoder.Decode]: the event written through the pointer, and the
    error. *)
Definition Decoder : Type := list byte → APMEvent * option error.

(** [model.BatchProcessor.ProcessBatch], with the processor's state
    passed explicitly. *)
Definition BatchProcessor : Type :=
  PS → Ctx → list APMEvent → PS * option error.

(** The struct [consumer]; its field [failed] is mutable and lives in
    the [World]. *)
Record consumer : Type := {
  SubscriberClient : Client;
  logger : Logger;
  delivery : DeliveryType;
  processor : BatchProcessor;
  decoder : Decoder;
  telemetryAttributes : list (string * string)
}.

(** The mutable state a handler call works on: the retry tracker
    [consumer.failed] (a [sync.Map] from message identifier to [int])
    and the state of the processor. *)
Record World : Type := {
  failed : gmap string Z;
  procState : PS
}.

(** A computation returns a value, the new state, and the effects it
    had. *)
Definition M (A : Type) : Type := World → A * World * list Effect.

#[global] Instance M_ret : MRet M := λ A a w, (a, w, []).

#[global] Instance M_bind : MBind M := λ A B f m w,
  let '(a, w1, e1) := m w in
  let '(b, w2, e2) := f a w1 in
  (b, w2, e1 ++ e2).

Definition emit (e : Effect) : M unit := λ w, (tt, w, [e]).

Definition Ack (msg : Message) : M unit := emit (EvAck (ID msg)).
Definition Nack (msg : Message) : M unit := emit (EvNack (ID msg)).

Definition log_Error (lg : Logger) (msg : string) (fs : list Field)
  : M unit := emit (EvLog lg ErrorLevel msg fs).
Definition log_Info (lg : Logger) (msg : string) (fs : list Field)
  : M unit := emit (EvLog lg InfoLevel msg fs).

(** [sync.Map.LoadOrStore]: the existing value and [true], or the given
    one, stored, and [false]; one atomic step. *)
Definition LoadOrStore (key : string) (v : Z) : M (Z * bool) := λ w,
  match failed w !! key with
  | Some a => ((a, true), w, [EvLoadOrStore key v])
  | None =>
      ((v, false),
       {| failed := <[key := v]> (failed w); procState := procState w |},
       [EvLoadOrStore key v])
  end.

(** [sync.Map.Store]. *)
Definition Store (key : string) (v : Z) : M unit := λ w,
  (tt, {| failed := <[key := v]> (failed w); procState := procState w |},
   [EvStore key v]).

(** [sync.Map.Delete]. *)
Definition Delete (key : string) : M unit := λ w,
  (tt, {| failed := delete key (failed w); procState := procState w |},
   [EvDelete key]).

(** [c.processor.ProcessBatch(ctx, &batch)]. *)
Definition ProcessBatch (c : consumer) (ctx : Ctx) (batch : list APMEvent)
  : M (option error) := λ w,
  let '(ps, err) := processor c (procState w) ctx batch in
  (err, {| failed := failed w; procState := ps |},
   [EvProcessBatch ctx batch]).

(** [partitionOffset]: zero values when the identifier does not parse. *)
Definition partitionOffset (id : string) : Z * Z :=
  match ParseMessageMetadata id with
  | Some meta => (Partition meta, Offset meta)
  | None => (0, 0)
  end.

(** The function deferred by [processMessage] under at-least-once
    delivery; [err] is the captured variable when it runs. *)
Definition deferred (c : consumer) (msg : Message) (err : option error)
  : M unit :=
  match err with
  | Some _ =>
      let attempt := 1 in
      '(a, ok) ← LoadOrStore (ID msg) attempt;
      let attempt := if ok : bool then wrap_int (attempt + a) else attempt in
      if bool_decide (attempt > 2) then
        Nack msg;;
        Delete (ID msg)
      else
        Store (ID msg) attempt
  | None =>
      let '(partition, offset) := partitionOffset (ID msg) in
      log_Info (logger c) "processed previously failed event"
        [zapInt64 "offset" offset; zapInt "partition" partition;
         zapAny "headers" (Attributes msg)];;
      Ack msg;;
      Delete (ID msg)
  end.

(** [consumer.processMessage]. *)
Definition processMessage (c : consumer) (ctx : Ctx) (msg : Message)
  : M unit :=
  let '(event, derr) := decoder c (Data msg) in
  match derr with
  | Some err =>
      (* defer msg.Nack() *)
      let '(partition, offset) := partitionOffset (ID msg) in
      log_Error (logger c)
        "unable to decode message.Data into model.APMEvent"
        [zapError err; zapByteString "message.value" (Data msg);
         zapInt64 "offset" offset; zapInt "partition" partition;
         zapAny "headers" (Attributes msg)];;
      Nack msg
  | None =>
      let batch := [event] in
      let ctx := ctxWithMetadata ctx (Attributes msg) in
      (* the switch: what is done at once, and what is deferred *)
      dfr ← match delivery c with
            | AtMostOnceDeliveryType => Ack msg;; mret None
            | AtLeastOnceDeliveryType => mret (Some (deferred c msg))
            | otherDeliveryType _ => mret None
            end;
      err ← ProcessBatch c ctx batch;
      match err with
      | Some e =>
          let '(partition, offset) := partitionOffset (ID msg) in
          log_Error (logger c) "unable to process event"
            [zapError e; zapInt64 "offset" offset;
             zapInt "partition" partition;
             zapAny "headers" (Attributes msg)]
      | None => mret tt
      end;;
      (* the deferred call runs on return *)
      match dfr with
      | Some d => d err
      | None => mret tt
      end
  end.

(** The state after a computation, and its effects. *)
Definition state_after {A} (m : M A) (w : World) : World := (m w).1.2.
Definition effects_of {A} (m : M A) (w : World) : list Effect := (m w).2.

(** Whether the processor, called for [msg] in state [w], fails. *)
Definition processing_fails (c : consumer) (ctx : Ctx) (msg : Message)
    (w : World) : Prop :=
  is_Some (processor c (procState w)
             (ctxWithMetadata ctx (Attributes msg))
             [(decoder c (Data msg)).1]).2.

(** How often a message is acknowledged, and negatively acknowledged,
    in a run of effects. *)
Definition is_ack (id : string) (e : Effect) : bool :=
  match e with EvAck i => bool_decide (i = id) | _ => false end.
Definition is_nack (id : string) (e : Effect) : bool :=
  match e with EvNack i => bool_decide (i = id) | _ => false end.
Definition acks (id : string) (es : list Effect) : nat :=
  length (List.filter (is_ack id) es).
Definition nacks (id : string) (es : list Effect) : nat :=
  length (List.filter (is_nack id) es).

(** The log record of a decoding failure. *)
Definition decode_diagnostic (c : consumer) (msg : Message) (err : error) : Effect :=
  EvLog (logger c) ErrorLevel
    "unable to decode message.Data into model.APMEvent"
    [zapError err; zapByteString "message.value" (Data msg);
     zapInt64 "offset" (partitionOffset (ID msg)).2;
     zapInt "partition" (partitionOffset (ID msg)).1;
     zapAny "headers" (Attributes msg)].

(** The log record of a processing failure. *)
Definition process_diagnostic (c : consumer) (msg : Message) (e : error) : Effect :=
  EvLog (logger c) ErrorLevel "unable to process event"
    [zapError e; zapInt64 "offset" (partitionOffset (ID msg)).2;
     zapInt "partition" (partitionOffset (ID msg)).1;
     zapAny "headers" (Attributes msg)].

(** The recovery notice. *)
Definition recovery_notice (c : consumer) (msg : Message) : Effect :=
  EvLog (logger c) InfoLevel "processed previously failed event"
    [zapInt64 "offset" (partitionOffset (ID msg)).2;
     zapInt "partition" (partitionOffset (ID msg)).1;
     zapAny "headers" (Attributes msg)].

Definition process_log (c : consumer) (msg : Message) (r : option error)
  : list Effect :=
  match r with
  | Some e => [process_diagnostic (c : consumer) (msg : Message) e]
  | None => []
  end.

Definition with_proc (ps : PS) (w : World) : World :=
  {| failed := failed w; procState := ps |}.
Definition with_failed (m : gmap string Z) (w : World) : World :=
  {| failed := m; procState := procState w |}.

(** The acknowledgements, of either kind, among the effects. *)
Definition ack_events (es : list Effect) : list Effect :=
  List.filter
    (λ e, match e with EvAck _ | EvNack _ => true | _ => false end) es.

End PerMessage.

(** ** Concurrent handler calls on one message identifier *)

Section Interleaving.

Context {APMEvent PS : Type}.

(** Where a handler call stands in the failure branch of the deferred
    function: each constructor is the point before one call on the
    shared tracker or on the message. The calls themselves are atomic
    ([sync.Map] is linearizable); nothing makes two of them atomic
    together. *)
Inductive pc : Type :=
  | pcLoadOrStore
  | pcDecide (attempt : Z)
  | pcDelete
  | pcDone.

(** One step of a handler call that has failed to process [msg]. *)
Definition thread_step (msg : Message) (p : pc) : M (PS := PS) pc :=
  match p with
  | pcLoadOrStore =>
      let attempt := 1 in
      '(a, ok) ← LoadOrStore (APMEvent := APMEvent) (ID msg) attempt;
      mret (pcDecide (if ok : bool then wrap_int (attempt + a)
                      else attempt))
  | pcDecide attempt =>
      if bool_decide (attempt > 2) then
        Nack msg;; mret pcDelete
      else
        Store (ID msg) attempt;; mret pcDone
  | pcDelete => Delete (ID msg);; mret pcDone
  | pcDone => mret pcDone
  end.

(** The handler calls in flight, stepped in the order the schedule
    names them. *)
Fixpoint run_schedule (msg : Message) (sched : list nat) (ts : list pc)
  : M (PS := PS) (list pc) :=
  match sched with
  | [] => mret ts
  | i :: sched' =>
      match ts !! i with
      | Some p =>
          p' ← thread_step msg p;
          run_schedule msg sched' (<[i := p']> ts)
      | None => run_schedule msg sched' ts
      end
  end.

(** One handler call run to its end without another in between. *)
Definition thread_alone (msg : Message) : M (PS := PS) pc :=
  p1 ← thread_step msg pcLoadOrStore;
  p2 ← thread_step msg p1;
  thread_step msg p2.

End Interleaving.

(** ** The supervisor *)

(** [Subscription]. *)
Record Subscription : Type := {
  subProject : string;
  subRegion : string;
  subName : string
}.

(** [Subscription.String]. *)
Definition Subscription_String (s : Subscription) : string :=
  ("projects/" +:+ subProject s +:+ "/locations/" +:+ subRegion s
   +:+ "/subscriptions/" +:+ subName s)%string.

(** A [context.CancelFunc]: the context it cancels. *)
Record CancelFunc : Type := { cancels : Ctx }.

(** How a call ends: it returns, it panics, or it does not return (a
    lock that is held, a loop that goes on). *)
Inductive outcome (A : Type) : Type :=
  | Returned (a : A)
  | Panicked (reason : string)
  | Blocked.
Arguments Returned {A} a.
Arguments Panicked {A} reason.
Arguments Blocked {A}.

(** [errgroup.Group.Wait]: the first non-nil error among the results of
    the goroutines, taken in the order they returned. *)
Fixpoint first_error (finished : list (option error)) : option error :=
  match finished with
  | [] => None
  | Some e :: _ => Some e
  | None :: rest => first_error rest
  end.

Section Supervisor.

Context {APMEvent PS Client ClientOption TracerProvider Tracer : Type}.

Variable ParseMessageMetadata : string → option MessageMetadata.

Local Abbreviation consumerT := (@consumer APMEvent PS Client).
Local Abbreviation DecoderT := (@Decoder APMEvent).
Local Abbreviation ProcessorT := (@BatchProcessor APMEvent PS).

(** [pscompat.ReceiveSettings], of which the consumer sets the nack
    handler. *)
Record ReceiveSettings : Type := {
  NackHandler : Message → M (APMEvent := APMEvent) (PS := PS)
                            (option error)
}.

(** The transport and the tracing library. *)
Variable NewSubscriberClientWithSettings :
  Ctx → string → ReceiveSettings → list ClientOption → Client + error.
Variable GetTracerProvider : TracerProvider.
Variable TracerOf : TracerProvider → string → Tracer.

(** [SubscriberClient.Receive]: what the [n]-th call on a client
    returns. The messages it hands to [processMessage] meanwhile are
    the subject of the previous sections. *)
Variable Receive : Client → Ctx → nat → option error.

Definition Config : Type :=
  @ConsumerConfig DecoderT Logger ProcessorT ClientOption TracerProvider.

(** The struct [Consumer]; [mu] is [true] while the mutex is held. *)
Record Consumer : Type := {
  mu : bool;
  cfg : Config;
  consumers : list consumerT;
  stopSubscriber : option CancelFunc;
  tracer : Tracer
}.

Definition set_mu (b : bool) (c : Consumer) : Consumer :=
  {| mu := b; cfg := cfg c; consumers := consumers c;
     stopSubscriber := stopSubscriber c; tracer := tracer c |}.

Definition set_stopSubscriber (f : option CancelFunc) (c : Consumer)
  : Consumer :=
  {| mu := mu c; cfg := cfg c; consumers := consumers c;
     stopSubscriber := f; tracer := tracer c |}.

(** The nack handler of [NewConsumer]. The closure reads [cfg.Logger]
    when it is called, which is after [NewConsumer] has replaced it by
    the named logger. *)
Definition nackHandler (lg : Logger) (msg : Message)
  : M (APMEvent := APMEvent) (PS := PS) (option error) :=
  let '(partition, offset) :=
    partitionOffset ParseMessageMetadata (ID msg) in
  log_Error lg "handling nacked message"
    [zapInt "partition" partition; zapInt64 "offset" offset;
     zapAny "attributes" (Attributes msg)];;
  mret None.

(** The loop of [NewConsumer] over the topics; [lg], [dec] and [proc]
    are [cfg.Logger], [cfg.Decoder] and [cfg.Processor]. *)
Fixpoint newConsumers (ctx : Ctx) (c : Config) (lg : Logger)
    (dec : DecoderT) (proc : ProcessorT)
    (settings : ReceiveSettings) (topics : list string)
    (acc : list consumerT) : list consumerT + error :=
  match topics with
  | [] => inl acc
  | topic :: rest =>
      let subscription :=
        {| subName := topic; subProject := Project c;
           subRegion := Region c |} in
      match NewSubscriberClientWithSettings ctx
              (Subscription_String subscription) settings (ClientOpts c)
      with
      | inr err =>
          inr (wrapError "pubsublite: failed creating consumer" err)
      | inl client =>
          newConsumers ctx c lg dec proc settings rest
            (acc ++
             [{| SubscriberClient := client;
                 delivery := Delivery c;
                 processor := proc;
                 decoder := dec;
                 logger := With lg
                   [zapString "subscription" topic;
                    zapString "region" (Region c);
                    zapString "project" (Project c)];
                 telemetryAttributes :=
                   [("messaging.source.name", topic);
                    ("cloud.region", Region c);
                    ("cloud.account.id", Project c)] |}])
      end
  end.

Definition set_cfgLogger (lg : Logger) (c : Config) : Config :=
  {| Region := Region c; Project := Project c; Topics := Topics c;
     cfgDecoder := cfgDecoder c; cfgLogger := Some lg;
     cfgProcessor := cfgProcessor c; Delivery := Delivery c;
     ClientOpts := ClientOpts c;
     cfgTracerProvider := cfgTracerProvider c |}.

(** [NewConsumer]. A configuration that passes [Validate] has its
    three collaborators set, so the last branch is never taken
    ([NewConsumer_collaborators_set] below). The new [Consumer] has the
    zero value in [mu] and in [stopSubscriber]. *)
Definition NewConsumer (ctx : Ctx) (c : Config) : Consumer + error :=
  match Validate c with
  | Some err => inr (wrapError "pubsublite: invalid consumer config" err)
  | None =>
      match cfgLogger c, cfgDecoder c, cfgProcessor c with
      | Some lg, Some dec, Some proc =>
          let lg := Named lg "pubsublite" in
          let settings := {| NackHandler := nackHandler lg |} in
          let c := set_cfgLogger lg c in
          match newConsumers ctx c lg dec proc settings (Topics c) [] with
          | inr err => inr err
          | inl cs =>
              let tracerProvider :=
                match cfgTracerProvider c with
                | Some tp => tp
                | None => GetTracerProvider
                end in
              inl {| mu := false; cfg := c; consumers := cs;
                     stopSubscriber := None;
                     tracer := TracerOf tracerProvider "pubsublite" |}
          end
      | _, _, _ => inr (errorString "pubsublite: nil collaborator")
      end
  end.

(** [Consumer.Close]: the new state, how the call ends, and the
    contexts it cancels. Calling the nil [stopSubscriber] panics; the
    deferred [Unlock] runs all the same. *)
Definition Close (c : Consumer)
  : Consumer * outcome (option error) * list Ctx :=
  if mu c then (c, Blocked, [])
  else
    let c := set_mu true c in
    (* defer c.mu.Unlock() *)
    match stopSubscriber c with
    | None =>
        (set_mu false c,
         Panicked "invalid memory address or nil pointer dereference",
         [])
    | Some stop => (set_mu false c, Returned None, [cancels stop])
    end.

(** The loop of one goroutine of [Run], from its [n]-th call of
    [Receive]: the value it returns and the number of calls made, or
    [None] when [fuel] calls were not enough. *)
Fixpoint receive_loop (fuel : nat) (cl : Client) (ctx : Ctx) (n : nat)
  : option (option error * nat) :=
  match fuel with
  | O => None
  | S fuel' =>
      let err := Receive cl ctx n in
      if errors_Is_unavailable err then receive_loop fuel' cl ctx (S n)
      else Some (err, S n)
  end.

(** What a call of [Run] leaves and does. *)
Record RunResult : Type := {
  after : Consumer;
  started : list consumerT;
  returned : outcome (option error)
}.

(** [Consumer.Run]. The goroutines return in the order [order] (indices
    into [c.consumers]); [fuel] bounds the calls of [Receive] of each
    loop. *)
Definition Run (c : Consumer) (ctx : Ctx) (order : list nat)
    (fuel : nat) : RunResult :=
  if mu c then {| after := c; started := []; returned := Blocked |}
  else
    let c := set_mu true c in
    match stopSubscriber c with
    | Some _ =>
        let c := set_mu false c in
        {| after := c; started := [];
           returned :=
             Returned
               (Some (errorString "pubsublite: consumer already started"))
        |}
    | None =>
        let ctx := ctxWithCancel ctx in
        let c := set_stopSubscriber (Some {| cancels := ctx |}) c in
        let c := set_mu false c in
        let ctx := ctxErrgroup ctx in
        let loops :=
          (λ cs, receive_loop fuel (SubscriberClient cs) ctx 0)
            <$> consumers c in
        {| after := c; started := consumers c;
           returned :=
             match mapM id loops with
             | None => Blocked
             | Some results =>
                 Returned
                   (first_error
                      (omap (λ i, fst <$> results !! i) order))
             end |}
    end.

End Supervisor.

(** ** The Azure SASL mechanism ([kafka/sasl/azure/oauth.go]) *)

Module saslazure.

(** [policy.TokenRequestOptions]: the code sets [Scopes] and leaves the
    other fields at their zero value. *)
Record TokenRequestOptions : Type := {
  Scopes : list string
}.

(** [azcore.AccessToken]. *)
Record AccessToken : Type := {
  Token : string;
  ExpiresOn : Z
}.

(** [oauth.Auth]. *)
Record Auth : Type := {
  authZid : string;
  authToken : string;
  authExtensions : gmap string string
}.

(** [oauth.Auth{}]. *)
Definition zeroAuth : Auth :=
  {| authZid := ""; authToken := ""; authExtensions := ∅ |}.

(** [azcore.TokenCredential.GetToken]. *)
Definition TokenCredential : Type :=
  Ctx → TokenRequestOptions → AccessToken * option error.

(** What the callback of the mechanism does: the requests it makes to
    the credential, in order, and the pair it returns. *)
Record Authentication : Type := {
  requests : list TokenRequestOptions;
  result : Auth * option error
}.

(** A [sasl.Mechanism] made by [oauth.Oauth]: the callback it holds. *)
Definition Mechanism : Type := Ctx → Authentication.

Definition Oauth (fn : Ctx → Authentication) : Mechanism := fn.

(** [fmt.Sprintf("https://%s/.default", ns)]. *)
Definition scope_of (ns : string) : string :=
  ("https://" +:+ ns +:+ "/.default")%string.

(** [NewFromCredential]. *)
Definition NewFromCredential (cred : TokenCredential) (ns : string)
  : Mechanism :=
  let scope := scope_of ns in
  Oauth (λ ctx,
    let opts := {| Scopes := [scope] |} in
    let '(token, err) := cred ctx opts in
    {| requests := [opts];
       result :=
         match err with
         | Some e => (zeroAuth, Some e)
         | None =>
             ({| authZid := ""; authToken := Token token;
                 authExtensions := ∅ |}, None)
         end |}).

End saslazure.

(** ** A small instance, for the examples *)

Module Fixture.

(** Events are the payload itself; the decoder rejects the empty
    payload. *)
Definition decode : Decoder (APMEvent := list byte) := λ data,
  match data with
  | [] => ([], Some (otherError "empty payload"))
  | _ => (data, None)
  end.

(** The processor answers from a script of outcomes, and succeeds once
    the script is used up. *)
Definition process
  : BatchProcessor (APMEvent := list byte) (PS := list (option error)) :=
  λ script _ _,
    match script with
    | [] => ([], None)
    | r :: rest => (rest, r)
    end.

Definition parse (id : string) : option MessageMetadata :=
  if bool_decide (id = "3:42")
  then Some {| Partition := 3; Offset := 42 |} else None.

Definition log : Logger := {| loggerName := []; loggerFields := [] |}.

Definition msg : Message :=
  {| ID := "3:42"; Data := [x61%byte]; Attributes := ∅ |}.

Definition bad : Message :=
  {| ID := "3:43"; Data := []; Attributes := ∅ |}.

Definition sub (d : DeliveryType)
  : consumer (APMEvent := list byte) (PS := list (option error))
      (Client := string) :=
  {| SubscriberClient := "projects/p/locations/r/subscriptions/t";
     logger := log; delivery := d; processor := process;
     decoder := decode; telemetryAttributes := [] |}.

Definition boom : option error := Some (otherError "processing failed").

Definition world (script : list (option error))
  : World (PS := list (option error)) :=
  {| failed := ∅; procState := script |}.

Definition config
  : Config (APMEvent := list byte) (PS := list (option error))
      (ClientOption := unit) (TracerProvider := string) :=
  {| Region := "r"; Project := "p"; Topics := ["t"];
     cfgDecoder := Some decode; cfgLogger := Some log;
     cfgProcessor := Some process; Delivery := AtLeastOnceDeliveryType;
     ClientOpts := []; cfgTracerProvider := None |}.

(** A transport that always connects, and whose [Receive] reports the
    backend unavailable twice before a fatal error. *)
Definition connect (_ : Ctx) (path : string)
    (_ : ReceiveSettings (APMEvent := list byte)
           (PS := list (option error)))
    (_ : list unit) : string + error := inl path.

Definition receive (_ : string) (_ : Ctx) (n : nat) : option error :=
  if bool_decide (n < 2)%nat then Some ErrBackendUnavailable
  else Some (otherError "subscriber stopped").

Definition tracerOf (tp name : string) : string * string := (tp, name).

Definition newConsumer :=
  NewConsumer (Tracer := string * string) parse connect "global" tracerOf
    (ctxRoot "main") config.

(** The supervisor of the fixture consumer, before [Run]. *)
Definition supervisor
  : Consumer (APMEvent := list byte) (PS := list (option error))
      (Client := string) (ClientOption := unit)
      (TracerProvider := string) (Tracer := string * string) :=
  {| mu := false; cfg := config;
     consumers := [sub AtLeastOnceDeliveryType];
     stopSubscriber := None; tracer := ("global", "pubsublite") |}.

(** A credential that grants a token for one scope only. *)
Definition cred : saslazure.TokenCredential := λ _ opts,
  if bool_decide (saslazure.Scopes opts
                  = ["https://ns.example.net/.default"])
  then ({| saslazure.Token := "secret"; saslazure.ExpiresOn := 0 |}, None)
  else ({| saslazure.Token := ""; saslazure.ExpiresOn := 0 |},
        Some (otherError "unauthorized"))%string.

End Fixture.

(** ** Runs of deliveries, and what the tracker may hold *)

Section Deliveries.

Context {APMEvent PS Client : Type}.
Variable ParseMessageMetadata : string → option MessageMetadata.

(** The handler called [n] times in a row for the same message, as the
    transport does when it delivers a message again. *)
Fixpoint deliver_times (c : @consumer APMEvent PS Client) (ctx : Ctx)
    (msg : Message) (n : nat) : M (APMEvent := APMEvent) (PS := PS) unit :=
  match n with
  | O => mret tt
  | S n' =>
      processMessage ParseMessageMetadata c ctx msg;;
      deliver_times c ctx msg n'
  end.

(** The counts the code ever stores: 1 by [LoadOrStore], 1 or 2 by
    [Store]. *)
Definition tracker_ok (m : gmap string Z) : Prop :=
  map_Forall (λ _ v, v = 1 ∨ v = 2) m.

(** The attempts a handler call can hold between its [LoadOrStore] and
    its next step. *)
Definition pc_ok (p : pc) : Prop :=
  match p with
  | pcDecide attempt => attempt = 1 ∨ attempt = 2 ∨ attempt = 3
  | _ => True
  end.

(** The tracker entry after [k] failures that followed the last
    settlement of the message. *)
Definition entry_of (k : nat) : option Z :=
  match k with
  | O => None
  | S _ => Some (Z.of_nat k)
  end.

(** The calls of the processor among the effects. *)
Definition process_calls (es : list (@Effect APMEvent)) : nat :=
  length (List.filter
            (λ e, match e with EvProcessBatch _ _ => true | _ => false end)
            es).

(** The effects that change the tracker. *)
Definition tracker_writes (es : list (@Effect APMEvent)) : nat :=
  length (List.filter
            (λ e, match e with
                  | EvLoadOrStore _ _ | EvStore _ _ | EvDelete _ => true
                  | _ => false
                  end) es).

End Deliveries.

(** [Consumer.Healthy]. *)
Definition Healthy {APMEvent PS Client ClientOption TracerProvider Tracer}
    (c : @Consumer APMEvent PS Client ClientOption TracerProvider Tracer)
    (ctx : Ctx) : option error :=
  None.

(** The path [NewConsumer] connects to for a topic. *)
Definition subscription_path (project region topic : string) : string :=
  Subscription_String
    {| subName := topic; subProject := project; subRegion := region |}.

(** A second instance: a processor that is down, and a transport that
    refuses one topic. *)
Module Scenario.

Definition down : BatchProcessor (APMEvent := list byte) (PS := unit) :=
  λ ps _ _, (ps, Some (otherError "processor down")).

Definition sub
  : consumer (APMEvent := list byte) (PS := unit) (Client := string) :=
  {| SubscriberClient := "projects/p/locations/r/subscriptions/t";
     logger := Fixture.log; delivery := AtLeastOnceDeliveryType;
     processor := down; decoder := Fixture.decode;
     telemetryAttributes := [] |}.

Definition world (m : gmap string Z) : World (PS := unit) :=
  {| failed := m; procState := tt |}.

Definition config (topics : list string)
  : Config (APMEvent := list byte) (PS := list (option error))
      (ClientOption := unit) (TracerProvider := string) :=
  {| Region := "r"; Project := "p"; Topics := topics;
     cfgDecoder := Some Fixture.decode; cfgLogger := Some Fixture.log;
     cfgProcessor := Some Fixture.process;
     Delivery := AtMostOnceDeliveryType;
     ClientOpts := []; cfgTracerProvider := Some "custom" |}.

(** The transport has no subscription named "gone". *)
Definition connect (_ : Ctx) (path : string)
    (_ : ReceiveSettings (APMEvent := list byte)
           (PS := list (option error)))
    (_ : list unit) : string + error :=
  if bool_decide (path = "projects/p/locations/r/subscriptions/gone")
  then inr (otherError "not found") else inl path.

(** A transport whose [Receive] ends with nil, as after a
    cancellation. *)
Definition cancelled (_ : string) (_ : Ctx) (_ : nat) : option error := None.

(** A transport whose backend never comes back. *)
Definition unavailable (_ : string) (_ : Ctx) (_ : nat) : option error :=
  Some (wrapError "receive" ErrBackendUnavailable).

End Scenario.

(** * Properties *)

(** ** Configuration validation *)

Section ConfigFacts.

Context {Decoder Logger Processor ClientOption TracerProvider : Type}.

Local Abbreviation ConfigT :=
  (@ConsumerConfig Decoder Logger Processor ClientOption TracerProvider).

Lemma is_nil_true {A} (x : option A) : is_nil x = true ↔ x = None.
Proof. destruct x; simpl; split; congruence. Qed.

Lemma meetsb_spec (c : ConfigT) r : meetsb c r = true ↔ meets c r.
Proof.
  destruct r; simpl;
    rewrite ?negb_true_iff, ?bool_decide_eq_false,
      <-?not_true_iff_false, ?is_nil_true; try done.
  - destruct (Topics c); split; congruence.
  - destruct (Delivery c); split; try tauto; try done.
    intros [?|?]; congruence.
Qed.

Lemma omap_id_Some {A} (l : list A) : omap id (Some <$> l) = l.
Proof. induction l as [|x l IH]; [done|]. cbn. by f_equal. Qed.

(** The slice built by the code holds exactly the entries of the
    violated requirements, in order. *)
Lemma Validate_errs_violated (c : ConfigT) :
  Validate_errs c = entry <$> violated c.
Proof.
  unfold Validate_errs, violated, requirements.
  destruct c as [rg pj tp dc lg pr dl co tr].
  cbn [Topics Project Region cfgDecoder cfgLogger cfgProcessor Delivery].
  rewrite !filter_cons, filter_nil.
  cbn [meetsb Topics Project Region cfgDecoder cfgLogger cfgProcessor
       Delivery].
  destruct (bool_decide (pj = "")), (bool_decide (rg = ""));
    destruct tp, dc, lg, pr, dl; reflexivity.
Qed.

#[global] Instance entry_inj : Inj (=) (=) entry.
Proof. intros [] [] Heq; (reflexivity || discriminate Heq). Qed.

Lemma violated_NoDup (c : ConfigT) : NoDup (violated c).
Proof.
  apply NoDup_filter, NoDup_ListNoDup. unfold requirements.
  repeat (constructor; [simpl; intuition discriminate|]). constructor.
Qed.

Lemma violated_all_met (c : ConfigT) :
  violated c = [] ↔ ∀ r, meets c r.
Proof.
  split.
  - intros Hnil r. apply meetsb_spec.
    destruct (meetsb c r) eqn:Hm; [done|].
    assert (r ∈ violated c) as Hin.
    { apply list_elem_of_filter. split; [done|].
      unfold requirements.
      destruct r; repeat first [by left | right]. }
    rewrite Hnil in Hin. by apply elem_of_nil in Hin.
  - intros Hall. destruct (violated c) as [|r l] eqn:Hv; [done|].
    assert (r ∈ violated c) as Hin by (rewrite Hv; left).
    apply list_elem_of_filter in Hin as [Hm _].
    specialize (Hall r). apply meetsb_spec in Hall. congruence.
Qed.

Lemma Validate_None_all_met (c : ConfigT) :
  Validate c = None ↔ ∀ r, meets c r.
Proof.
  rewrite <-violated_all_met. unfold Validate, errors_Join.
  rewrite omap_id_Some, Validate_errs_violated.
  destruct (violated c); simpl; split; congruence.
Qed.

End ConfigFacts.

(** C8. [Validate] returns no error exactly when every requirement is met
    (a topic, a project, a region, a decoder, a logger, a processor and
    one of the two delivery types); otherwise it returns the join of the
    entries of the violated requirements: one entry for each of them, no
    requirement twice and no other entry. *)
Theorem Validate_aggregates_every_violation
    {Decoder Logger Processor ClientOption TracerProvider : Type}
    (c : @ConsumerConfig Decoder Logger Processor ClientOption
           TracerProvider) :
  (Validate c = None ↔
     Topics c ≠ [] ∧ Project c ≠ "" ∧ Region c ≠ "" ∧
     cfgDecoder c ≠ None ∧ cfgLogger c ≠ None ∧ cfgProcessor c ≠ None ∧
     (Delivery c = AtMostOnceDeliveryType
      ∨ Delivery c = AtLeastOnceDeliveryType)) ∧
  Validate c = match violated c with
               | [] => None
               | rs => Some (joinError (entry <$> rs))
               end ∧
  (∀ r, r ∈ violated c ↔ ¬ meets c r) ∧
  NoDup (violated c) ∧
  (∀ r, entry r ∈ Validate_errs c ↔ ¬ meets c r) ∧
  NoDup (Validate_errs c).
Proof.
  assert (Validate c = match violated c with
                       | [] => None
                       | rs => Some (joinError (entry <$> rs))
                       end) as Hval.
  { unfold Validate, errors_Join.
    rewrite omap_id_Some, Validate_errs_violated.
    by destruct (violated c). }
  assert (∀ r, r ∈ violated c ↔ ¬ meets c r) as Hin.
  { intros r. unfold violated.
    rewrite list_elem_of_filter, <-meetsb_spec, not_true_iff_false.
    split; [tauto|]. intros ?. split; [done|]. unfold requirements.
    destruct r; repeat first [by left | right]. }
  split; [|split; [done|split; [done|split; [|split]]]].
  - transitivity (violated c = []).
    { rewrite Hval. destruct (violated c); split; congruence. }
    rewrite violated_all_met. split.
    + intros H. exact (conj (H ReqTopics) (conj (H ReqProject)
        (conj (H ReqRegion) (conj (H ReqDecoder) (conj (H ReqLogger)
        (conj (H ReqProcessor) (H ReqDelivery))))))).
    + intros (?&?&?&?&?&?&?) []; done.
  - apply violated_NoDup.
  - intros r. rewrite Validate_errs_violated.
    by rewrite (list_elem_of_fmap_inj entry).
  - rewrite Validate_errs_violated. apply (NoDup_fmap_2 _), violated_NoDup.
Qed.

(** A configuration with nothing set and an unknown delivery type: all
    seven entries are reported. *)
Example Validate_empty_config :
  Validate (Decoder := unit) (Logger := unit) (Processor := unit)
    (ClientOption := unit) (TracerProvider := unit)
    {| Region := ""; Project := ""; Topics := []; cfgDecoder := None;
       cfgLogger := None; cfgProcessor := None;
       Delivery := otherDeliveryType 7; ClientOpts := [];
       cfgTracerProvider := None |}
  = Some (joinError (entry <$> requirements)).
Proof. reflexivity. Qed.

(** ** The delivery policy of [processMessage] *)

Section PerMessageFacts.

Context {APMEvent PS Client : Type}.
Variable parse : string → option MessageMetadata.

Local Abbreviation consumerT := (@consumer APMEvent PS Client).
Local Abbreviation WorldT := (@World PS).

Implicit Types (c : consumerT) (w : WorldT) (msg : Message) (ctx : Ctx).

Ltac run_monad :=
  unfold mbind, M_bind, mret, M_ret, Ack, Nack, log_Error, log_Info,
    emit, ProcessBatch, Store, Delete.

Lemma processMessage_decode_error c ctx msg w ev err :
  decoder c (Data msg) = (ev, Some err) →
  processMessage parse c ctx msg w
  = (tt, w, [decode_diagnostic parse c msg err; EvNack (ID msg)]).
Proof.
  intros Hdec. unfold processMessage, decode_diagnostic. rewrite Hdec.
  destruct (partitionOffset parse (ID msg)) as [partition offset].
  run_monad. reflexivity.
Qed.

Lemma processMessage_at_most_once c ctx msg w ev ps r :
  decoder c (Data msg) = (ev, None) →
  delivery c = AtMostOnceDeliveryType →
  processor c (procState w) (ctxWithMetadata ctx (Attributes msg)) [ev]
  = (ps, r) →
  processMessage parse c ctx msg w
  = (tt, with_proc ps w,
     EvAck (ID msg)
     :: EvProcessBatch (ctxWithMetadata ctx (Attributes msg)) [ev]
     :: process_log parse c msg r).
Proof.
  intros Hdec Hdel Hproc.
  unfold processMessage, process_log, process_diagnostic.
  rewrite Hdec, Hdel. run_monad. cbn [failed procState]. rewrite Hproc.
  destruct (partitionOffset parse (ID msg)) as [partition offset].
  destruct r; reflexivity.
Qed.

Lemma processMessage_at_least_once c ctx msg w ev ps r :
  decoder c (Data msg) = (ev, None) →
  delivery c = AtLeastOnceDeliveryType →
  processor c (procState w) (ctxWithMetadata ctx (Attributes msg)) [ev]
  = (ps, r) →
  processMessage parse c ctx msg w
  = (tt, state_after (deferred parse c msg r) (with_proc ps w),
     EvProcessBatch (ctxWithMetadata ctx (Attributes msg)) [ev]
     :: process_log parse c msg r
     ++ effects_of (deferred parse c msg r) (with_proc ps w)).
Proof.
  intros Hdec Hdel Hproc.
  unfold processMessage, process_log, process_diagnostic, state_after,
    effects_of.
  rewrite Hdec, Hdel. run_monad. cbn [failed procState]. rewrite Hproc.
  destruct (partitionOffset parse (ID msg)) as [partition offset] eqn:Hpo.
  unfold with_proc.
  destruct r; cbn -[deferred];
    destruct (deferred parse c msg _ _) as [[[] w'] es]; reflexivity.
Qed.

Lemma deferred_failure_first c msg e w :
  failed w !! ID msg = None →
  deferred parse c msg (Some e) w
  = (tt, with_failed (<[ID msg := 1]> (<[ID msg := 1]> (failed w))) w,
     [EvLoadOrStore (ID msg) 1; EvStore (ID msg) 1]).
Proof.
  intros Hnone. unfold deferred, LoadOrStore. run_monad. rewrite Hnone.
  cbn [failed procState]. reflexivity.
Qed.

Lemma deferred_failure_retry c msg e w a :
  failed w !! ID msg = Some a →
  wrap_int (1 + a) ≤ 2 →
  deferred parse c msg (Some e) w
  = (tt, with_failed (<[ID msg := wrap_int (1 + a)]> (failed w)) w,
     [EvLoadOrStore (ID msg) 1; EvStore (ID msg) (wrap_int (1 + a))]).
Proof.
  intros Hsome Hle. unfold deferred, LoadOrStore. run_monad.
  rewrite Hsome. rewrite bool_decide_eq_false_2 by lia. reflexivity.
Qed.

Lemma deferred_failure_give_up c msg e w a :
  failed w !! ID msg = Some a →
  wrap_int (1 + a) > 2 →
  deferred parse c msg (Some e) w
  = (tt, with_failed (delete (ID msg) (failed w)) w,
     [EvLoadOrStore (ID msg) 1; EvNack (ID msg); EvDelete (ID msg)]).
Proof.
  intros Hsome Hgt. unfold deferred, LoadOrStore. run_monad.
  rewrite Hsome. rewrite bool_decide_eq_true_2 by lia. reflexivity.
Qed.

Lemma deferred_success c msg w :
  deferred parse c msg None w
  = (tt, with_failed (delete (ID msg) (failed w)) w,
     [recovery_notice parse c msg; EvAck (ID msg); EvDelete (ID msg)]).
Proof.
  unfold deferred, recovery_notice.
  destruct (partitionOffset parse (ID msg)) as [partition offset].
  run_monad. reflexivity.
Qed.

Lemma acks_cons id (e : @Effect APMEvent) es :
  acks id (e :: es) = ((if is_ack id e then 1 else 0) + acks id es)%nat.
Proof. unfold acks. simpl. by destruct (is_ack id e). Qed.

Lemma nacks_cons id (e : @Effect APMEvent) es :
  nacks id (e :: es) = ((if is_nack id e then 1 else 0) + nacks id es)%nat.
Proof. unfold nacks. simpl. by destruct (is_nack id e). Qed.

Ltac count_acks :=
  unfold process_log, process_diagnostic, decode_diagnostic,
    recovery_notice;
  cbn [app]; rewrite ?acks_cons, ?nacks_cons; cbn [is_ack is_nack];
  rewrite ?bool_decide_eq_true_2 by done; done.

(** A failed attempt under at-least-once delivery, by the count the
    tracker holds for the message. *)
Lemma failed_attempt c ctx msg w :
  delivery c = AtLeastOnceDeliveryType →
  (decoder c (Data msg)).2 = None →
  processing_fails c ctx msg w →
  let w' := state_after (processMessage parse c ctx msg) w in
  let es := effects_of (processMessage parse c ctx msg) w in
  match failed w !! ID msg with
  | None =>
      failed w' !! ID msg = Some 1
      ∧ acks (ID msg) es = 0%nat ∧ nacks (ID msg) es = 0%nat
  | Some 1 =>
      failed w' !! ID msg = Some 2
      ∧ acks (ID msg) es = 0%nat ∧ nacks (ID msg) es = 0%nat
  | Some 2 =>
      failed w' !! ID msg = None
      ∧ acks (ID msg) es = 0%nat ∧ nacks (ID msg) es = 1%nat
  | Some _ => True
  end.
Proof.
  intros Hdel Hdec Hfail. unfold processing_fails in Hfail.
  destruct (decoder c (Data msg)) as [ev derr] eqn:Hd. simpl in *. subst.
  destruct (processor c _ _ _) as [ps r] eqn:Hp. simpl in Hfail.
  destruct Hfail as [e ->]. unfold state_after, effects_of.
  rewrite (processMessage_at_least_once _ _ _ _ _ _ _ Hd Hdel Hp).
  cbn [fst snd process_log]. unfold state_after, effects_of.
  change (failed w) with (failed (with_proc ps w)).
  destruct (failed (with_proc ps w) !! ID msg) as [a|] eqn:Hf.
  - destruct (decide (a = 1)) as [->|]; [|destruct (decide (a = 2)) as [->|]].
    + rewrite (deferred_failure_retry _ _ _ _ _ Hf) by (vm_compute; congruence).
      cbn [fst snd with_failed failed].
      rewrite lookup_insert_eq. split; [done|].
      count_acks.
    + rewrite (deferred_failure_give_up _ _ _ _ _ Hf) by (vm_compute; congruence).
      cbn [fst snd with_failed failed].
      rewrite lookup_delete_eq. split; [done|].
      count_acks.
    + destruct a as [|[| |]|]; try done. 
      all: destruct p; try done. 
  - rewrite (deferred_failure_first _ _ _ _ Hf).
    cbn [fst snd with_failed failed].
    rewrite lookup_insert_eq. split; [done|].
    count_acks.
Qed.

(** C1. At-least-once delivery, a message with no entry in the tracker
    whose processing fails on three deliveries in a row (whatever else
    the consumer handles in between, the entry of this message is as
    the previous attempt left it): the first failure leaves the message
    neither acknowledged nor negatively acknowledged and the count at
    1, the second likewise with the count at 2, and the third
    negatively acknowledges it once and removes its entry. *)
Theorem three_failures_nack_and_forget c ctx1 ctx2 ctx3 msg w1 w2 w3 :
  delivery c = AtLeastOnceDeliveryType →
  (decoder c (Data msg)).2 = None →
  failed w1 !! ID msg = None →
  processing_fails c ctx1 msg w1 →
  failed w2 !! ID msg
  = failed (state_after (processMessage parse c ctx1 msg) w1) !! ID msg →
  processing_fails c ctx2 msg w2 →
  failed w3 !! ID msg
  = failed (state_after (processMessage parse c ctx2 msg) w2) !! ID msg →
  processing_fails c ctx3 msg w3 →
  (failed (state_after (processMessage parse c ctx1 msg) w1) !! ID msg
   = Some 1
   ∧ acks (ID msg) (effects_of (processMessage parse c ctx1 msg) w1) = 0%nat
   ∧ nacks (ID msg) (effects_of (processMessage parse c ctx1 msg) w1)
     = 0%nat)
  ∧ (failed (state_after (processMessage parse c ctx2 msg) w2) !! ID msg
     = Some 2
     ∧ acks (ID msg) (effects_of (processMessage parse c ctx2 msg) w2)
       = 0%nat
     ∧ nacks (ID msg) (effects_of (processMessage parse c ctx2 msg) w2)
       = 0%nat)
  ∧ (failed (state_after (processMessage parse c ctx3 msg) w3) !! ID msg
     = None
     ∧ acks (ID msg) (effects_of (processMessage parse c ctx3 msg) w3)
       = 0%nat
     ∧ nacks (ID msg) (effects_of (processMessage parse c ctx3 msg) w3)
       = 1%nat).
Proof.
  intros Hdel Hdec H1 Hf1 H2 Hf2 H3 Hf3.
  pose proof (failed_attempt c ctx1 msg w1 Hdel Hdec Hf1) as A1.
  cbv zeta in A1. rewrite H1 in A1.
  pose proof (failed_attempt c ctx2 msg w2 Hdel Hdec Hf2) as A2.
  cbv zeta in A2. rewrite H2, (proj1 A1) in A2.
  pose proof (failed_attempt c ctx3 msg w3 Hdel Hdec Hf3) as A3.
  cbv zeta in A3. rewrite H3, (proj1 A2) in A3.
  done.
Qed.

(** C3. At-most-once delivery, a message that decodes: the handler
    acknowledges it, then calls the processor, and a failure of the
    processor only adds a log record. The message is acknowledged once
    and never negatively acknowledged, whatever the processor returns,
    and the tracker is not touched. *)
Theorem at_most_once_acks_before_processing c ctx msg w :
  delivery c = AtMostOnceDeliveryType →
  (decoder c (Data msg)).2 = None →
  let ev := (decoder c (Data msg)).1 in
  let ctx' := ctxWithMetadata ctx (Attributes msg) in
  let r := (processor c (procState w) ctx' [ev]).2 in
  let es := effects_of (processMessage parse c ctx msg) w in
  es = EvAck (ID msg) :: EvProcessBatch ctx' [ev] :: process_log parse c msg r
  ∧ ack_events es = [EvAck (ID msg)]
  ∧ acks (ID msg) es = 1%nat
  ∧ nacks (ID msg) es = 0%nat
  ∧ failed (state_after (processMessage parse c ctx msg) w) = failed w.
Proof.
  intros Hdel Hdec.
  destruct (decoder c (Data msg)) as [ev derr] eqn:Hd. simpl in Hdec.
  subst derr. cbn [fst].
  destruct (processor c (procState w)
              (ctxWithMetadata ctx (Attributes msg)) [ev])
    as [ps r] eqn:Hp.
  cbn [snd]. unfold effects_of, state_after.
  rewrite (processMessage_at_most_once _ _ _ _ _ _ _ Hd Hdel Hp).
  cbn [fst snd with_proc failed].
  split; [done|]. destruct r; (split; [reflexivity|]); count_acks.
Qed.

(** The part of C4 the code does: at-least-once delivery, a message
    whose processing succeeds is acknowledged once, and its entry is
    removed from the tracker after that. The recovery notice is logged
    without a look at the tracker. *)
Lemma success_acks_and_forgets c ctx msg w :
  delivery c = AtLeastOnceDeliveryType →
  (decoder c (Data msg)).2 = None →
  let ev := (decoder c (Data msg)).1 in
  let ctx' := ctxWithMetadata ctx (Attributes msg) in
  (processor c (procState w) ctx' [ev]).2 = None →
  effects_of (processMessage parse c ctx msg) w
  = [EvProcessBatch ctx' [ev]; recovery_notice parse c msg;
     EvAck (ID msg); EvDelete (ID msg)]
  ∧ failed (state_after (processMessage parse c ctx msg) w) !! ID msg
    = None.
Proof.
  intros Hdel Hdec.
  destruct (decoder c (Data msg)) as [ev derr] eqn:Hd. simpl in Hdec.
  subst derr. cbn [fst].
  destruct (processor c (procState w)
              (ctxWithMetadata ctx (Attributes msg)) [ev])
    as [ps r] eqn:Hp.
  cbn [snd]. intros ->. unfold effects_of, state_after.
  rewrite (processMessage_at_least_once _ _ _ _ _ _ _ Hd Hdel Hp).
  unfold effects_of, state_after. rewrite deferred_success.
  cbn [fst snd with_failed failed process_log app].
  split; [done|]. apply lookup_delete_eq.
Qed.

(** Also of C4: two failures in a row, then a success. The third
    delivery finds the count at 2, acknowledges the message, and then
    removes the entry. *)
Lemma two_failures_then_success c ctx1 ctx2 ctx3 msg w1 w2 w3 :
  delivery c = AtLeastOnceDeliveryType →
  (decoder c (Data msg)).2 = None →
  failed w1 !! ID msg = None →
  processing_fails c ctx1 msg w1 →
  failed w2 !! ID msg
  = failed (state_after (processMessage parse c ctx1 msg) w1) !! ID msg →
  processing_fails c ctx2 msg w2 →
  failed w3 !! ID msg
  = failed (state_after (processMessage parse c ctx2 msg) w2) !! ID msg →
  (processor c (procState w3) (ctxWithMetadata ctx3 (Attributes msg))
     [(decoder c (Data msg)).1]).2 = None →
  failed w3 !! ID msg = Some 2
  ∧ effects_of (processMessage parse c ctx3 msg) w3
    = [EvProcessBatch (ctxWithMetadata ctx3 (Attributes msg))
         [(decoder c (Data msg)).1];
       recovery_notice parse c msg; EvAck (ID msg); EvDelete (ID msg)]
  ∧ failed (state_after (processMessage parse c ctx3 msg) w3) !! ID msg
    = None.
Proof.
  intros Hdel Hdec H1 Hf1 H2 Hf2 H3 Hok.
  pose proof (failed_attempt c ctx1 msg w1 Hdel Hdec Hf1) as A1.
  cbv zeta in A1. rewrite H1 in A1.
  pose proof (failed_attempt c ctx2 msg w2 Hdel Hdec Hf2) as A2.
  cbv zeta in A2. rewrite H2, (proj1 A1) in A2.
  split; [by rewrite H3, (proj1 A2)|].
  exact (success_acks_and_forgets c ctx3 msg w3 Hdel Hdec Hok).
Qed.

(** C6. A message whose payload does not decode: the handler logs the
    diagnostic (the error, the payload, the offset, the partition and
    the attributes), negatively acknowledges the message, and does
    nothing else; the processor is not called and the tracker is left
    as it was, whatever the delivery type. *)
Theorem decode_failure_nacks_without_retry c ctx msg w err :
  (decoder c (Data msg)).2 = Some err →
  processMessage parse c ctx msg w
  = (tt, w,
     [EvLog (logger c) ErrorLevel
        "unable to decode message.Data into model.APMEvent"
        [zapError err; zapByteString "message.value" (Data msg);
         zapInt64 "offset" (partitionOffset parse (ID msg)).2;
         zapInt "partition" (partitionOffset parse (ID msg)).1;
         zapAny "headers" (Attributes msg)];
      EvNack (ID msg)])
  ∧ failed (state_after (processMessage parse c ctx msg) w) = failed w
  ∧ procState (state_after (processMessage parse c ctx msg) w)
    = procState w
  ∧ nacks (ID msg) (effects_of (processMessage parse c ctx msg) w) = 1%nat
  ∧ acks (ID msg) (effects_of (processMessage parse c ctx msg) w) = 0%nat.
Proof.
  intros Hdec.
  destruct (decoder c (Data msg)) as [ev derr] eqn:Hd. simpl in Hdec.
  subst derr. unfold state_after, effects_of.
  rewrite (processMessage_decode_error _ _ _ _ _ _ Hd).
  cbn [fst snd]. repeat split; count_acks.
Qed.

End PerMessageFacts.

(** ** Concurrent failures of one message *)

Section InterleavingFacts.

Context {APMEvent PS Client : Type}.
Variable parse : string → option MessageMetadata.

Local Abbreviation consumerT := (@consumer APMEvent PS Client).
Local Abbreviation WorldT := (@World PS).

Implicit Types (c : consumerT) (w : WorldT) (msg : Message).

Ltac run_monad :=
  unfold mbind, M_bind, mret, M_ret, Ack, Nack, log_Error, log_Info,
    emit, ProcessBatch, Store, Delete, LoadOrStore.

(** The steps are those of the deferred function: a handler call that
    takes them with no other call in between does what [deferred] does
    on a failure. *)
Lemma thread_alone_is_deferred c msg e w :
  thread_alone (APMEvent := APMEvent) msg w
  = (pcDone, state_after (deferred parse c msg (Some e)) w,
     effects_of (deferred parse c msg (Some e)) w).
Proof.
  unfold thread_alone, thread_step, deferred, state_after, effects_of.
  run_monad.
  destruct (failed w !! ID msg) as [a|]; cbn [fst snd];
    destruct (bool_decide _); reflexivity.
Qed.

Lemma step_load_absent msg w :
  failed w !! ID msg = None →
  thread_step (APMEvent := APMEvent) msg pcLoadOrStore w
  = (pcDecide 1, with_failed (<[ID msg := 1]> (failed w)) w,
     [EvLoadOrStore (ID msg) 1]).
Proof. intros H. unfold thread_step. run_monad. by rewrite H. Qed.

Lemma step_load_present msg w a :
  failed w !! ID msg = Some a →
  thread_step (APMEvent := APMEvent) msg pcLoadOrStore w
  = (pcDecide (wrap_int (1 + a)), w, [EvLoadOrStore (ID msg) 1]).
Proof. intros H. unfold thread_step. run_monad. by rewrite H. Qed.

Lemma step_store msg w attempt :
  attempt ≤ 2 →
  thread_step (APMEvent := APMEvent) msg (pcDecide attempt) w
  = (pcDone, with_failed (<[ID msg := attempt]> (failed w)) w,
     [EvStore (ID msg) attempt]).
Proof.
  intros H. unfold thread_step. rewrite bool_decide_eq_false_2 by lia.
  reflexivity.
Qed.

(** C2, on the code. Two handler calls for the same message, both
    failed, tracker empty. When the second call loads and stores
    between the first call's [LoadOrStore] and its [Store], both calls
    finish and the tracker holds 1 for two failures; when one call
    follows the other, it holds 2. *)
Theorem concurrent_failures_lose_an_increment msg (ps : PS) :
  let w := {| failed := ∅; procState := ps |} in
  let start := [pcLoadOrStore; pcLoadOrStore] in
  let racy :=
    run_schedule (APMEvent := APMEvent) msg [0; 1; 1; 0]%nat start w in
  let serial :=
    run_schedule (APMEvent := APMEvent) msg [0; 0; 1; 1]%nat start w in
  racy.1.1 = [pcDone; pcDone]
  ∧ failed racy.1.2 !! ID msg = Some 1
  ∧ racy.2 = [EvLoadOrStore (ID msg) 1; EvLoadOrStore (ID msg) 1;
              EvStore (ID msg) 2; EvStore (ID msg) 1]
  ∧ serial.1.1 = [pcDone; pcDone]
  ∧ failed serial.1.2 !! ID msg = Some 2.
Proof.
  cbv zeta. unfold run_schedule.
  cbn [lookup list_lookup insert list_insert].
  unfold mbind, M_bind, mret, M_ret.
  rewrite step_load_absent by apply lookup_empty.
  rewrite step_load_present with (a := 1)
    by (cbn [failed with_failed]; apply lookup_insert_eq).
  change (wrap_int (1 + 1)) with 2.
  rewrite !step_store by lia.
  rewrite step_load_present with (a := 1)
    by (cbn [failed with_failed]; apply lookup_insert_eq).
  change (wrap_int (1 + 1)) with 2.
  rewrite !step_store by lia.
  cbn [fst snd failed with_failed app].
  rewrite !lookup_insert_eq. done.
Qed.

End InterleavingFacts.

(** ** The supervisor: [NewConsumer], [Close] and [Run] *)

Section SupervisorFacts.

Context {APMEvent PS Client ClientOption TracerProvider Tracer : Type}.

Variable parse : string → option MessageMetadata.
Variable connect :
  Ctx → string → @ReceiveSettings APMEvent PS → list ClientOption
  → Client + error.
Variable globalTracerProvider : TracerProvider.
Variable tracerOf : TracerProvider → string → Tracer.
Variable Receive : Client → Ctx → nat → option error.

Local Abbreviation ConsumerT :=
  (@Consumer APMEvent PS Client ClientOption TracerProvider Tracer).
Local Abbreviation ConfigT :=
  (@Config APMEvent PS ClientOption TracerProvider).

Implicit Types (c : ConsumerT) (cl : Client) (ctx : Ctx).

(** A consumer made by [NewConsumer] has never been run: its mutex is
    free and its cancellation function is nil. *)
Lemma NewConsumer_not_started ctx (conf : ConfigT) c :
  NewConsumer (Tracer := Tracer) parse connect globalTracerProvider
    tracerOf ctx conf = inl c →
  mu c = false ∧ stopSubscriber c = None.
Proof.
  unfold NewConsumer. intros H.
  repeat case_match; simplify_eq; done.
Qed.

Lemma newConsumers_error ctx (conf : ConfigT) lg dec proc settings topics
    acc e :
  newConsumers (Client := Client) connect ctx conf lg dec proc settings
    topics acc = inr e →
  ∃ e', e = wrapError "pubsublite: failed creating consumer" e'.
Proof.
  revert acc. induction topics as [|topic rest IH]; intros acc; simpl.
  - discriminate.
  - destruct (connect _ _ _ _) as [client|err].
    + apply IH.
    + intros [= <-]. by eexists.
Qed.

(** The branch of [NewConsumer] for a nil collaborator is dead code of
    the model: [Validate] has rejected such a configuration before. *)
Lemma NewConsumer_collaborators_set ctx (conf : ConfigT) :
  NewConsumer (Tracer := Tracer) parse connect globalTracerProvider
    tracerOf ctx conf
  ≠ inr (errorString "pubsublite: nil collaborator").
Proof.
  unfold NewConsumer.
  destruct (Validate conf) as [e|] eqn:Hv; [done|].
  pose proof (proj1 (Validate_None_all_met conf) Hv) as Hall.
  pose proof (Hall ReqLogger) as Hl. pose proof (Hall ReqDecoder) as Hd.
  pose proof (Hall ReqProcessor) as Hp. simpl in Hl, Hd, Hp.
  destruct (cfgLogger conf), (cfgDecoder conf), (cfgProcessor conf);
    try done.
  destruct (newConsumers _ _ _ _ _ _ _ _ _) as [cs|e] eqn:Hn; [done|].
  apply newConsumers_error in Hn as [e' ->]. done.
Qed.

(** [Close] on a consumer that was never run calls a nil function. *)
Lemma Close_never_run c :
  mu c = false → stopSubscriber c = None →
  Close c
  = (c, Panicked "invalid memory address or nil pointer dereference", []).
Proof.
  destruct c as [m cf cs stop tr]. simpl. intros -> ->. reflexivity.
Qed.

(** [Close] after [Run] has set the cancellation function. *)
Lemma Close_started c stop :
  mu c = false → stopSubscriber c = Some stop →
  Close c = (c, Returned None, [cancels stop]).
Proof.
  destruct c as [m cf cs st tr]. simpl. intros -> ->. reflexivity.
Qed.

Lemma Run_leaves_started c ctx order fuel :
  mu c = false →
  mu (after (Run Receive c ctx order fuel)) = false
  ∧ is_Some (stopSubscriber (after (Run Receive c ctx order fuel))).
Proof.
  destruct c as [m cf cs [stop|] tr]; simpl; intros ->; simpl; eauto.
Qed.

Lemma Run_already_started c ctx order fuel :
  mu c = false → is_Some (stopSubscriber c) →
  Run Receive c ctx order fuel
  = {| after := c; started := [];
       returned :=
         Returned
           (Some (errorString "pubsublite: consumer already started")) |}.
Proof.
  destruct c as [m cf cs stop tr]. simpl. intros -> [f ->]. reflexivity.
Qed.

(** C7. [Run] on a consumer on which [Run] has been called before (the
    first call may still be waiting for its loops, or may have
    returned): the second call returns the error "consumer already
    started", starts no loop, and leaves the consumer, its cancellation
    function included, as the first call left it. *)
Theorem second_Run_already_started c ctx1 ctx2 order1 order2 fuel1 fuel2 :
  mu c = false →
  let first := Run Receive c ctx1 order1 fuel1 in
  let second := Run Receive (after first) ctx2 order2 fuel2 in
  returned second
  = Returned (Some (errorString "pubsublite: consumer already started"))
  ∧ started second = []
  ∧ after second = after first
  ∧ stopSubscriber (after second) = stopSubscriber (after first)
  ∧ is_Some (stopSubscriber (after first)).
Proof.
  intros Hmu first second.
  destruct (Run_leaves_started c ctx1 order1 fuel1 Hmu) as [Hmu' Hstop].
  subst second.
  rewrite (Run_already_started (after first) ctx2 order2 fuel2 Hmu' Hstop).
  simpl. done.
Qed.

(** *** The receive loop *)

Lemma receive_loop_not_unavailable fuel cl ctx n r calls :
  receive_loop Receive fuel cl ctx n = Some (r, calls) →
  errors_Is_unavailable r = false.
Proof.
  revert n. induction fuel as [|fuel IH]; intros n; simpl; [done|].
  destruct (errors_Is_unavailable (Receive cl ctx n)) eqn:Hun.
  - apply IH.
  - by intros [= <- _].
Qed.

Lemma receive_loop_returns_from cl ctx k : ∀ fuel n,
  (∀ i, (i < k)%nat →
        errors_Is_unavailable (Receive cl ctx (n + i)) = true) →
  errors_Is_unavailable (Receive cl ctx (n + k)) = false →
  (k < fuel)%nat →
  receive_loop Receive fuel cl ctx n
  = Some (Receive cl ctx (n + k), S (n + k)).
Proof.
  induction k as [|k IH]; intros fuel n Hun Hfatal Hfuel;
    (destruct fuel as [|fuel]; [lia|]); simpl.
  - rewrite Nat.add_0_r in *. by rewrite Hfatal.
  - specialize (Hun 0%nat ltac:(lia)) as Hun0.
    rewrite Nat.add_0_r in Hun0. rewrite Hun0.
    rewrite (IH fuel (S n)).
    + do 3 f_equal; lia.
    + intros i Hi. replace (S n + i)%nat with (n + S i)%nat by lia.
      apply Hun. lia.
    + by replace (S n + k)%nat with (n + S k)%nat by lia.
    + lia.
Qed.

Lemma receive_loop_goes_on cl ctx :
  (∀ i, errors_Is_unavailable (Receive cl ctx i) = true) →
  ∀ fuel n, receive_loop Receive fuel cl ctx n = None.
Proof.
  intros Hun. induction fuel as [|fuel IH]; intros n; simpl; [done|].
  by rewrite Hun.
Qed.

Lemma first_error_elem (l : list (option error)) e :
  first_error l = Some e → Some e ∈ l.
Proof.
  induction l as [|[x|] l IH]; simpl; [done| |].
  - intros [= ->]. left.
  - intros H. right. auto.
Qed.

Lemma Run_not_unavailable c ctx order fuel r :
  returned (Run Receive c ctx order fuel) = Returned r →
  errors_Is_unavailable r = false.
Proof.
  unfold Run. destruct (mu c); [done|].
  destruct c as [m cf cs [stop|] tr]; simpl.
  - by intros [= <-].
  - destruct (mapM id _) as [results|] eqn:Hm; [|done].
    intros [= <-]. destruct (first_error _) as [e|] eqn:Hfe; [|done].
    apply first_error_elem, list_elem_of_omap in Hfe as (i & _ & Hi).
    destruct (results !! i) as [[r n]|] eqn:Hr; simplify_eq/=.
    apply mapM_Some_1 in Hm.
    destruct (Forall2_lookup_r _ _ _ _ _ Hm Hr) as (x & Hx & Hloop).
    apply list_lookup_fmap_Some in Hx as (cs0 & -> & _). simpl in Hloop.
    by apply receive_loop_not_unavailable in Hloop.
Qed.

(** C9. A receive loop whose first [k] calls of [Receive] report the
    backend unavailable and whose next call returns anything else calls
    [Receive] [k + 1] times and returns that last result; no loop ever
    returns an error that is the sentinel, and neither does [Run]. *)
Theorem receive_loop_retries_backend_unavailable cl ctx k fuel :
  (∀ i, (i < k)%nat → errors_Is_unavailable (Receive cl ctx i) = true) →
  errors_Is_unavailable (Receive cl ctx k) = false →
  (k < fuel)%nat →
  receive_loop Receive fuel cl ctx 0 = Some (Receive cl ctx k, S k)
  ∧ (∀ fuel' n r calls,
       receive_loop Receive fuel' cl ctx n = Some (r, calls) →
       errors_Is_unavailable r = false)
  ∧ (∀ c ctx' order fuel' r,
       returned (Run Receive c ctx' order fuel') = Returned r →
       errors_Is_unavailable r = false).
Proof.
  intros Hun Hfatal Hfuel. split; [|split].
  - by apply (receive_loop_returns_from cl ctx k fuel 0%nat).
  - intros fuel' n r calls. apply receive_loop_not_unavailable.
  - intros c ctx' order fuel' r. apply Run_not_unavailable.
Qed.

End SupervisorFacts.

(** C5, on the code. [Close] on a consumer fresh from [NewConsumer]: the
    cancellation function is nil and calling it panics; the consumer is
    left as it was, with the mutex released by the deferred [Unlock]. *)
Theorem Close_before_Run_panics :
  ∃ c, Fixture.newConsumer = inl c
       ∧ stopSubscriber c = None
       ∧ Close c
         = (c, Panicked "invalid memory address or nil pointer dereference",
            []).
Proof. eexists. split; [reflexivity|]. split; reflexivity. Qed.

(** C4, on the code. At-least-once delivery, an empty tracker, a message
    processed with success on its first delivery: the notice "processed
    previously failed event" is logged all the same, before the
    acknowledgement. *)
Theorem recovery_notice_without_previous_failure :
  let c := Fixture.sub AtLeastOnceDeliveryType in
  let w := Fixture.world [] in
  failed w !! ID Fixture.msg = None
  ∧ effects_of
      (processMessage Fixture.parse c (ctxRoot "receive") Fixture.msg) w
    = [EvProcessBatch (ctxWithMetadata (ctxRoot "receive") ∅) [[x61%byte]];
       EvLog Fixture.log InfoLevel "processed previously failed event"
         [zapInt64 "offset" 42; zapInt "partition" 3; zapAny "headers" ∅];
       EvAck "3:42"; EvDelete "3:42"].
Proof. split; reflexivity. Qed.

(** C10. The callback of the mechanism asks the credential once, for the
    single scope "https://" ns "/.default"; it returns the token of the
    answer in an otherwise empty [Auth], or the zero [Auth] and the
    error of the credential as it is. *)
Theorem NewFromCredential_requests_default_scope
    (cred : saslazure.TokenCredential) (ns : string) (ctx : Ctx) :
  let opts :=
    {| saslazure.Scopes := ["https://" +:+ ns +:+ "/.default"] |} in
  let a := saslazure.NewFromCredential cred ns ctx in
  saslazure.requests a = [opts]
  ∧ saslazure.result a
    = match cred ctx opts with
      | (token, None) =>
          ({| saslazure.authZid := "";
              saslazure.authToken := saslazure.Token token;
              saslazure.authExtensions := ∅ |}, None)
      | (_, Some e) => (saslazure.zeroAuth, Some e)
      end.
Proof.
  unfold saslazure.NewFromCredential, saslazure.Oauth, saslazure.scope_of.
  cbv zeta. destruct (cred ctx _) as [token [e|]]; split; reflexivity.
Qed.

(** The fixture credential grants the token for the namespace it knows
    and refuses any other. *)
Example NewFromCredential_fixture :
  saslazure.result
    (saslazure.NewFromCredential Fixture.cred "ns.example.net"
       (ctxRoot "main"))
  = ({| saslazure.authZid := ""; saslazure.authToken := "secret";
        saslazure.authExtensions := ∅ |}, None)
  ∧ saslazure.result
      (saslazure.NewFromCredential Fixture.cred "other" (ctxRoot "main"))
    = (saslazure.zeroAuth, Some (otherError "unauthorized")).
Proof. split; reflexivity. Qed.

(** ** The theorems at the fixture *)

(** Three failures in a row of the fixture message. *)
Lemma three_failures_witness :
  let c := Fixture.sub AtLeastOnceDeliveryType in
  let run := processMessage Fixture.parse c (ctxRoot "receive") Fixture.msg in
  let w1 := Fixture.world [Fixture.boom; Fixture.boom; Fixture.boom] in
  let w2 := state_after run w1 in
  let w3 := state_after run w2 in
  (failed w2 !! "3:42" = Some 1
   ∧ acks "3:42" (effects_of run w1) = 0%nat
   ∧ nacks "3:42" (effects_of run w1) = 0%nat)
  ∧ (failed w3 !! "3:42" = Some 2
     ∧ acks "3:42" (effects_of run w2) = 0%nat
     ∧ nacks "3:42" (effects_of run w2) = 0%nat)
  ∧ (failed (state_after run w3) !! "3:42" = None
     ∧ acks "3:42" (effects_of run w3) = 0%nat
     ∧ nacks "3:42" (effects_of run w3) = 1%nat).
Proof.
  intros c run w1 w2 w3.
  apply (three_failures_nack_and_forget Fixture.parse c
           (ctxRoot "receive") (ctxRoot "receive") (ctxRoot "receive")
           Fixture.msg w1 w2 w3).
  - reflexivity.
  - reflexivity.
  - reflexivity.
  - vm_compute. eexists. reflexivity.
  - reflexivity.
  - vm_compute. eexists. reflexivity.
  - reflexivity.
  - vm_compute. eexists. reflexivity.
Defined.

(** At-most-once delivery of the fixture message to a failing
    processor. *)
Lemma at_most_once_witness :
  let c := Fixture.sub AtMostOnceDeliveryType in
  let w := Fixture.world [Fixture.boom] in
  let es :=
    effects_of
      (processMessage Fixture.parse c (ctxRoot "receive") Fixture.msg) w in
  ack_events es = [EvAck "3:42"] ∧ acks "3:42" es = 1%nat.
Proof.
  intros c w es.
  pose proof (at_most_once_acks_before_processing Fixture.parse c
                (ctxRoot "receive") Fixture.msg w eq_refl eq_refl) as H.
  cbv zeta in H. exact (conj (proj1 (proj2 H)) (proj1 (proj2 (proj2 H)))).
Defined.

(** The fixture decoder rejects the empty payload. *)
Lemma decode_failure_witness :
  let c := Fixture.sub AtLeastOnceDeliveryType in
  let w := Fixture.world [] in
  effects_of (processMessage Fixture.parse c (ctxRoot "receive") Fixture.bad)
    w
  = [EvLog Fixture.log ErrorLevel
       "unable to decode message.Data into model.APMEvent"
       [zapError (otherError "empty payload");
        zapByteString "message.value" []; zapInt64 "offset" 0;
        zapInt "partition" 0; zapAny "headers" ∅];
     EvNack "3:43"]
  ∧ failed
      (state_after
         (processMessage Fixture.parse c (ctxRoot "receive") Fixture.bad) w)
    = ∅.
Proof.
  intros c w.
  pose proof (decode_failure_nacks_without_retry Fixture.parse c
                (ctxRoot "receive") Fixture.bad w
                (otherError "empty payload") eq_refl) as [Hrun [Hfailed _]].
  split.
  - unfold effects_of. rewrite Hrun. reflexivity.
  - exact Hfailed.
Defined.

(** [Run] twice on the fixture supervisor. *)
Lemma second_Run_witness :
  let first :=
    Run Fixture.receive Fixture.supervisor (ctxRoot "main") [0%nat] 5 in
  let second :=
    Run Fixture.receive (after first) (ctxRoot "again") [0%nat] 5 in
  returned first = Returned (Some (otherError "subscriber stopped"))
  ∧ returned second
    = Returned (Some (errorString "pubsublite: consumer already started"))
  ∧ started second = []
  ∧ after second = after first.
Proof.
  intros first second.
  pose proof (second_Run_already_started Fixture.receive Fixture.supervisor
                (ctxRoot "main") (ctxRoot "again") [0%nat] [0%nat] 5 5
                eq_refl) as H.
  cbv zeta in H. split; [reflexivity|].
  exact (conj (proj1 H) (conj (proj1 (proj2 H)) (proj1 (proj2 (proj2 H))))).
Defined.

(** The fixture transport is unavailable twice, then stops: the loop
    calls [Receive] three times. *)
Lemma receive_loop_witness :
  receive_loop Fixture.receive 5 "client" (ctxRoot "main") 0
  = Some (Some (otherError "subscriber stopped"), 3%nat).
Proof.
  refine (proj1 (receive_loop_retries_backend_unavailable
                   (APMEvent := list byte) (PS := list (option error))
                   (ClientOption := unit) (TracerProvider := string)
                   (Tracer := string * string)
                   Fixture.receive "client" (ctxRoot "main") 2 5 _ _ _)).
  - intros [|[|i]] Hi; [reflexivity|reflexivity|lia].
  - reflexivity.
  - lia.
Defined.

(** * Further properties of the handler *)

Section HandlerFacts.

Context {APMEvent PS Client : Type}.
Variable parse : string → option MessageMetadata.

Local Abbreviation consumerT := (@consumer APMEvent PS Client).
Local Abbreviation WorldT := (@World PS).

Implicit Types (c : consumerT) (w : WorldT) (msg : Message) (ctx : Ctx).

Ltac run_monad :=
  unfold mbind, M_bind, mret, M_ret, Ack, Nack, log_Error, log_Info,
    emit, ProcessBatch, Store, Delete.

Lemma processMessage_other_delivery c ctx msg w ev ps r v :
  decoder c (Data msg) = (ev, None) →
  delivery c = otherDeliveryType v →
  processor c (procState w) (ctxWithMetadata ctx (Attributes msg)) [ev]
  = (ps, r) →
  processMessage parse c ctx msg w
  = (tt, with_proc ps w,
     EvProcessBatch (ctxWithMetadata ctx (Attributes msg)) [ev]
     :: process_log parse c msg r).
Proof.
  intros Hdec Hdel Hproc.
  unfold processMessage, process_log, process_diagnostic.
  rewrite Hdec, Hdel. run_monad. cbn [failed procState]. rewrite Hproc.
  destruct (partitionOffset parse (ID msg)) as [partition offset].
  destruct r; reflexivity.
Qed.

(** Every path of [processMessage], with its state and effects written
    out. *)
Lemma processMessage_cases c ctx msg w :
  processMessage parse c ctx msg w
  = let ctx' := ctxWithMetadata ctx (Attributes msg) in
    let id := ID msg in
    match decoder c (Data msg) with
    | (_, Some err) =>
        (tt, w, [decode_diagnostic parse c msg err; EvNack id])
    | (ev, None) =>
        let '(ps, r) := processor c (procState w) ctx' [ev] in
        let w' := with_proc ps w in
        match delivery c with
        | AtMostOnceDeliveryType =>
            (tt, w',
             EvAck id :: EvProcessBatch ctx' [ev]
             :: process_log parse c msg r)
        | otherDeliveryType _ =>
            (tt, w', EvProcessBatch ctx' [ev] :: process_log parse c msg r)
        | AtLeastOnceDeliveryType =>
            match r with
            | None =>
                (tt, with_failed (delete id (failed w)) w',
                 [EvProcessBatch ctx' [ev]; recovery_notice parse c msg;
                  EvAck id; EvDelete id])
            | Some e =>
                match failed w !! id with
                | None =>
                    (tt,
                     with_failed (<[id := 1]> (<[id := 1]> (failed w))) w',
                     [EvProcessBatch ctx' [ev];
                      process_diagnostic parse c msg e;
                      EvLoadOrStore id 1; EvStore id 1])
                | Some a =>
                    if bool_decide (wrap_int (1 + a) > 2) then
                      (tt, with_failed (delete id (failed w)) w',
                       [EvProcessBatch ctx' [ev];
                        process_diagnostic parse c msg e;
                        EvLoadOrStore id 1; EvNack id; EvDelete id])
                    else
                      (tt,
                       with_failed (<[id := wrap_int (1 + a)]> (failed w))
                         w',
                       [EvProcessBatch ctx' [ev];
                        process_diagnostic parse c msg e;
                        EvLoadOrStore id 1;
                        EvStore id (wrap_int (1 + a))])
                end
            end
        end
    end.
Proof.
  cbv zeta.
  destruct (decoder c (Data msg)) as [ev [err|]] eqn:Hd.
  { apply (processMessage_decode_error parse _ _ _ _ _ _ Hd). }
  destruct (processor c (procState w) _ [ev]) as [ps r] eqn:Hp.
  destruct (delivery c) as [| |v] eqn:Hdel.
  - apply (processMessage_at_most_once parse _ _ _ _ _ _ _ Hd Hdel Hp).
  - rewrite (processMessage_at_least_once parse _ _ _ _ _ _ _ Hd Hdel Hp).
    unfold state_after, effects_of. destruct r as [e|].
    + change (failed w) with (failed (with_proc ps w)).
      destruct (failed (with_proc ps w) !! ID msg) as [a|] eqn:Hf.
      * destruct (bool_decide (wrap_int (1 + a) > 2)) eqn:Hb.
        -- apply bool_decide_eq_true_1 in Hb.
           by rewrite (deferred_failure_give_up parse _ _ _ _ _ Hf Hb).
        -- apply bool_decide_eq_false_1 in Hb.
           by rewrite (deferred_failure_retry parse _ _ _ _ _ Hf)
             by lia.
      * by rewrite (deferred_failure_first parse _ _ _ _ Hf).
    + by rewrite deferred_success.
  - apply (processMessage_other_delivery _ _ _ _ _ _ _ _ Hd Hdel Hp).
Qed.

Ltac by_cases c ctx msg w :=
  unfold state_after, effects_of;
  rewrite (processMessage_cases c ctx msg w); cbv zeta;
  destruct (decoder c (Data msg)) as [ev [err|]];
  [|destruct (processor c (procState w)
               (ctxWithMetadata ctx (Attributes msg)) [ev]) as [ps r];
    destruct (delivery c) as [| |v]; [|destruct r as [e|];
      [destruct (failed w !! ID msg) as [a|] eqn:Hentry;
        [destruct (bool_decide (wrap_int (1 + a) > 2)) eqn:Hgt|]|]|]];
  cbn [fst snd failed procState with_proc with_failed].

(** X1. [processMessage] reads and writes the tracker entry of its own
    message only: the entry of any other identifier is as before. *)
Theorem processMessage_keeps_other_entries c ctx msg w key :
  key ≠ ID msg →
  failed (state_after (processMessage parse c ctx msg) w) !! key
  = failed w !! key.
Proof.
  intros Hne. by_cases c ctx msg w;
    rewrite ?lookup_insert_ne, ?lookup_delete_ne by done; reflexivity.
Qed.

(** X2. The tracker only ever holds the counts 1 and 2: a tracker with
    such counts has such counts after any call of [processMessage]. *)
Theorem processMessage_keeps_tracker_ok c ctx msg w :
  tracker_ok (failed w) →
  tracker_ok (failed (state_after (processMessage parse c ctx msg) w)).
Proof.
  unfold tracker_ok. intros Hok. by_cases c ctx msg w; try done.
  - by apply map_Forall_delete.
  - apply bool_decide_eq_false_1 in Hgt.
    destruct (Hok _ _ Hentry) as [->| ->].
    + apply map_Forall_insert_2; [by right|done].
    + exfalso. apply Hgt. reflexivity.
  - repeat apply map_Forall_insert_2; auto.
  - by apply map_Forall_delete.
Qed.

(** X3. One call of [processMessage] settles its message at most once:
    among its effects there is no acknowledgement, or one [Ack] of the
    message, or one [Nack] of the message, and none for another
    message. *)
Theorem processMessage_settles_at_most_once c ctx msg w :
  let es := effects_of (processMessage parse c ctx msg) w in
  ack_events es = []
  ∨ ack_events es = [EvAck (ID msg)]
  ∨ ack_events es = [EvNack (ID msg)].
Proof.
  cbv zeta. by_cases c ctx msg w;
    unfold process_log, process_diagnostic, decode_diagnostic,
      recovery_notice;
    try destruct r; cbn; auto.
Qed.

(** X4. The processor is called once for a message that decodes, with a
    batch of the one decoded event and a context that carries the
    attributes of the message, and not at all for one that does not. *)
Theorem processMessage_calls_processor_once c ctx msg w :
  let es := effects_of (processMessage parse c ctx msg) w in
  match decoder c (Data msg) with
  | (_, Some _) => process_calls es = 0%nat
                   ∧ procState (state_after
                                  (processMessage parse c ctx msg) w)
                     = procState w
  | (ev, None) =>
      process_calls es = 1%nat
      ∧ EvProcessBatch (ctxWithMetadata ctx (Attributes msg)) [ev] ∈ es
      ∧ procState (state_after (processMessage parse c ctx msg) w)
        = (processor c (procState w)
             (ctxWithMetadata ctx (Attributes msg)) [ev]).1
  end.
Proof.
  cbv zeta. unfold state_after, effects_of.
  rewrite (processMessage_cases c ctx msg w). cbv zeta.
  destruct (decoder c (Data msg)) as [ev [err|]]; [done|].
  destruct (processor c (procState w) _ [ev]) as [ps r].
  destruct (delivery c) as [| |v]; [|destruct r as [e|];
    [destruct (failed w !! ID msg) as [a|];
      [destruct (bool_decide _)|]|]|];
    unfold process_log, process_diagnostic, recovery_notice;
    try destruct r;
    (split; [reflexivity|split; [|reflexivity]]);
    repeat first [by left | right].
Qed.

(** X5. At-least-once delivery never acknowledges a message whose
    processing failed, and never negatively acknowledges one whose
    processing succeeded: a success gives one [Ack] and no [Nack], a
    failure no [Ack] and at most one [Nack]. *)
Theorem at_least_once_acks_only_success c ctx msg w :
  delivery c = AtLeastOnceDeliveryType →
  (decoder c (Data msg)).2 = None →
  let es := effects_of (processMessage parse c ctx msg) w in
  match (processor c (procState w) (ctxWithMetadata ctx (Attributes msg))
           [(decoder c (Data msg)).1]).2 with
  | None => ack_events es = [EvAck (ID msg)]
  | Some _ => ack_events es = [] ∨ ack_events es = [EvNack (ID msg)]
  end.
Proof.
  intros Hdel Hdec. cbv zeta. unfold effects_of.
  rewrite (processMessage_cases c ctx msg w). cbv zeta. rewrite Hdel.
  destruct (decoder c (Data msg)) as [ev derr]. cbn [fst snd] in *.
  subst derr.
  destruct (processor c (procState w) _ [ev]) as [ps [e|]]; cbn [snd].
  - destruct (failed w !! ID msg) as [a|];
      [destruct (bool_decide _)|];
      unfold process_diagnostic; cbn; auto.
  - reflexivity.
Qed.

(** X6. Only at-least-once delivery uses the retry tracker: under any
    other delivery type a call of [processMessage] leaves the tracker as
    it was and makes no call on it. *)
Theorem tracker_used_by_at_least_once_only c ctx msg w :
  delivery c ≠ AtLeastOnceDeliveryType →
  failed (state_after (processMessage parse c ctx msg) w) = failed w
  ∧ tracker_writes (effects_of (processMessage parse c ctx msg) w) = 0%nat.
Proof.
  intros Hdel. revert Hdel.
  by_cases c ctx msg w; intros Hdel; try done;
    unfold process_log, process_diagnostic, decode_diagnostic;
    try destruct r; split; reflexivity.
Qed.

(** X7. A delivery type that is neither of the two constants: a message
    that decodes is handed to the processor and then left neither
    acknowledged nor negatively acknowledged, whatever the processor
    returns. *)
Theorem unknown_delivery_never_settles c ctx msg w (n : N) :
  delivery c = otherDeliveryType n →
  (decoder c (Data msg)).2 = None →
  let es := effects_of (processMessage parse c ctx msg) w in
  ack_events es = [] ∧ process_calls es = 1%nat.
Proof.
  intros Hdel Hdec. cbv zeta. revert Hdel Hdec.
  by_cases c ctx msg w; intros Hdel Hdec; try done;
    unfold process_log, process_diagnostic;
    try destruct r; split; reflexivity.
Qed.

Lemma state_after_then {A} (m : M (APMEvent := APMEvent) (PS := PS) unit)
    (k : M A) w :
  state_after (m;; k) w = state_after k (state_after m w).
Proof.
  unfold state_after, mbind, M_bind.
  destruct (m w) as [[[] w1] e1]. cbn [fst snd].
  by destruct (k w1) as [[b w2] e2].
Qed.

Lemma effects_of_then {A} (m : M (APMEvent := APMEvent) (PS := PS) unit)
    (k : M A) w :
  effects_of (m;; k) w = effects_of m w ++ effects_of k (state_after m w).
Proof.
  unfold state_after, effects_of, mbind, M_bind.
  destruct (m w) as [[[] w1] e1]. cbn [fst snd].
  by destruct (k w1) as [[b w2] e2].
Qed.

Lemma acks_app id (es1 es2 : list (@Effect APMEvent)) :
  acks id (es1 ++ es2) = (acks id es1 + acks id es2)%nat.
Proof. unfold acks. by rewrite List.filter_app, length_app. Qed.

Lemma nacks_app id (es1 es2 : list (@Effect APMEvent)) :
  nacks id (es1 ++ es2) = (nacks id es1 + nacks id es2)%nat.
Proof. unfold nacks. by rewrite List.filter_app, length_app. Qed.

(** Deliveries in a row to a processor that is down, from [k] failures
    on record. *)
Lemma deliver_times_failing_from c ctx msg :
  delivery c = AtLeastOnceDeliveryType →
  (decoder c (Data msg)).2 = None →
  (∀ ps ctx' batch, is_Some (processor c ps ctx' batch).2) →
  ∀ n k w,
    (k < 3)%nat →
    failed w !! ID msg = entry_of k →
    failed (state_after (deliver_times parse c ctx msg n) w) !! ID msg
    = entry_of ((k + n) `mod` 3)
    ∧ nacks (ID msg) (effects_of (deliver_times parse c ctx msg n) w)
      = ((k + n) `div` 3)%nat
    ∧ acks (ID msg) (effects_of (deliver_times parse c ctx msg n) w)
      = 0%nat.
Proof.
  intros Hdel Hdec Hdown. induction n as [|n IH]; intros k w Hk Hentry.
  - rewrite Nat.add_0_r, Nat.mod_small, Nat.div_small by done.
    cbn [deliver_times]. unfold state_after, effects_of, mret, M_ret.
    cbn [fst snd]. by rewrite Hentry.
  - cbn [deliver_times].
    rewrite state_after_then, effects_of_then, acks_app, nacks_app.
    assert (processing_fails c ctx msg w) as Hfail by apply Hdown.
    pose proof (failed_attempt parse c ctx msg w Hdel Hdec Hfail) as Hstep.
    cbv zeta in Hstep. rewrite Hentry in Hstep.
    destruct k as [|[|[|k]]]; [| | |lia]; cbn [entry_of Z.of_nat] in Hstep;
      cbn [Pos.of_succ_nat Pos.succ] in Hstep;
      destruct Hstep as (Hnext & -> & ->).
    + destruct (IH 1%nat _ ltac:(lia) Hnext) as (-> & -> & ->). done.
    + destruct (IH 2%nat _ ltac:(lia) Hnext) as (-> & -> & ->). done.
    + destruct (IH 0%nat _ ltac:(lia) Hnext) as (-> & -> & ->).
      replace (2 + S n)%nat with (n + 1 * 3)%nat by lia.
      rewrite Nat.Div0.mod_add, Nat.div_add by done.
      split; [done|]. split; [|done].
      cbn [Nat.add]. by rewrite Nat.add_1_r.
Qed.

(** X8. At-least-once delivery to a processor that fails every time: of
    [n] deliveries in a row of a message with no entry in the tracker,
    every third is negatively acknowledged and clears the entry, so
    there are [n / 3] [Nack]s, no [Ack], and the tracker ends with the
    count [n mod 3] (no entry for 0). *)
Theorem failing_deliveries_nack_every_third c ctx msg w n :
  delivery c = AtLeastOnceDeliveryType →
  (decoder c (Data msg)).2 = None →
  (∀ ps ctx' batch, is_Some (processor c ps ctx' batch).2) →
  failed w !! ID msg = None →
  failed (state_after (deliver_times parse c ctx msg n) w) !! ID msg
  = entry_of (n `mod` 3)
  ∧ nacks (ID msg) (effects_of (deliver_times parse c ctx msg n) w)
    = (n `div` 3)%nat
  ∧ acks (ID msg) (effects_of (deliver_times parse c ctx msg n) w) = 0%nat.
Proof.
  intros Hdel Hdec Hdown Hnone.
  apply (deliver_times_failing_from c ctx msg Hdel Hdec Hdown n 0%nat w);
    [lia|done].
Qed.

End HandlerFacts.

(** * Further properties of concurrent handler calls *)

Section ScheduleFacts.

Context {APMEvent PS : Type}.

Implicit Types (w : @World PS) (msg : Message) (p : pc).

Lemma thread_step_keeps_ok msg p w :
  tracker_ok (failed w) → pc_ok p →
  tracker_ok
    (failed (state_after (thread_step (APMEvent := APMEvent) msg p) w))
  ∧ pc_ok (thread_step (APMEvent := APMEvent) msg p w).1.1.
Proof.
  unfold tracker_ok, state_after. intros Hok Hp.
  destruct p as [|attempt| |]; cbn [thread_step].
  - unfold LoadOrStore, mbind, M_bind, mret, M_ret.
    destruct (failed w !! ID msg) as [a|] eqn:Hentry; cbn [fst snd failed].
    + split; [done|]. cbn [pc_ok].
      destruct (Hok _ _ Hentry) as [->| ->]; vm_compute; auto.
    + split; [|cbn; auto]. apply map_Forall_insert_2; auto.
  - destruct (bool_decide (attempt > 2)) eqn:Hgt;
      unfold mbind, M_bind, mret, M_ret, Nack, emit, Store;
      cbn [fst snd failed]; (split; [|done]); [done|].
    apply bool_decide_eq_false_1 in Hgt. cbn [pc_ok] in Hp.
    apply map_Forall_insert_2; [lia|done].
  - unfold mbind, M_bind, mret, M_ret, Delete. cbn [fst snd failed].
    split; [|done]. by apply map_Forall_delete.
  - done.
Qed.

(** X9. Whatever the interleaving of any number of failed handler calls
    for a message, the tracker keeps holding the counts 1 and 2 only: a
    race can lose an increment, it cannot push a count past the
    ceiling. *)
Theorem any_schedule_keeps_tracker_ok msg sched : ∀ (ts : list pc) w,
  tracker_ok (failed w) →
  Forall pc_ok ts →
  tracker_ok
    (failed
       (state_after (run_schedule (APMEvent := APMEvent) msg sched ts) w))
  ∧ Forall pc_ok
      (run_schedule (APMEvent := APMEvent) msg sched ts w).1.1.
Proof.
  induction sched as [|i sched IH]; intros ts w Hok Hts;
    cbn [run_schedule].
  - done.
  - destruct (ts !! i) as [p|] eqn:Hi; [|by apply IH].
    pose proof (thread_step_keeps_ok msg p w Hok
                  (proj1 (Forall_lookup _ _) Hts i p Hi)) as [Hok' Hp'].
    unfold state_after, mbind, M_bind in *.
    destruct (thread_step msg p w) as [[p' w1] e1]. cbn [fst snd] in *.
    specialize (IH (<[i := p']> ts) w1 Hok' (Forall_insert _ _ _ _ Hts Hp')).
    destruct (run_schedule msg sched (<[i := p']> ts) w1) as [[ts' w2] e2].
    exact IH.
Qed.

End ScheduleFacts.

(** * Further properties of the supervisor *)

Section LifecycleFacts.

Context {APMEvent PS Client ClientOption TracerProvider Tracer : Type}.

Variable parse : string → option MessageMetadata.
Variable connect :
  Ctx → string → @ReceiveSettings APMEvent PS → list ClientOption
  → Client + error.
Variable globalTracerProvider : TracerProvider.
Variable tracerOf : TracerProvider → string → Tracer.
Variable Receive : Client → Ctx → nat → option error.

Local Abbreviation ConsumerT :=
  (@Consumer APMEvent PS Client ClientOption TracerProvider Tracer).
Local Abbreviation ConfigT :=
  (@Config APMEvent PS ClientOption TracerProvider).
Local Abbreviation consumerT := (@consumer APMEvent PS Client).
Local Abbreviation newConsumer :=
  (NewConsumer (Tracer := Tracer) parse connect globalTracerProvider
     tracerOf).

Implicit Types (c : ConsumerT) (cl : Client) (ctx : Ctx) (conf : ConfigT).

(** What [NewConsumer] makes of a topic. *)
Lemma newConsumers_shape ctx conf lg dec proc settings topics : ∀ acc cs,
  newConsumers connect ctx conf lg dec proc settings topics acc = inl cs →
  ∃ new,
    cs = acc ++ new
    ∧ Forall2
        (λ topic (sub : consumerT),
           connect ctx
             (subscription_path (Project conf) (Region conf) topic)
             settings (ClientOpts conf) = inl (SubscriberClient sub)
           ∧ delivery sub = Delivery conf
           ∧ decoder sub = dec ∧ processor sub = proc
           ∧ logger sub
             = With lg [zapString "subscription" topic;
                        zapString "region" (Region conf);
                        zapString "project" (Project conf)])
        topics new.
Proof.
  induction topics as [|topic rest IH]; intros acc cs; cbn [newConsumers].
  - intros [= <-]. exists []. by rewrite app_nil_r.
  - unfold subscription_path.
    destruct (connect ctx _ settings (ClientOpts conf)) as [client|err]
      eqn:Hc; [|done].
    intros Hrest. apply IH in Hrest as (new & -> & Hnew).
    eexists (_ :: new). rewrite <-app_assoc. split; [reflexivity|].
    constructor; [|done]. cbn. by rewrite Hc.
Qed.

Lemma newConsumers_connects ctx conf lg dec proc settings topics : ∀ acc,
  Forall (λ topic,
            ∃ cl, connect ctx
                    (subscription_path (Project conf) (Region conf) topic)
                    settings (ClientOpts conf) = inl cl) topics →
  ∃ cs, newConsumers connect ctx conf lg dec proc settings topics acc
        = inl cs.
Proof.
  induction topics as [|topic rest IH]; intros acc Hall;
    cbn [newConsumers]; [by eexists|].
  apply Forall_cons in Hall as [[cl Hc] Hrest].
  unfold subscription_path in Hc. rewrite Hc. by apply IH.
Qed.

Lemma newConsumers_first_failure ctx conf lg dec proc settings pre topic
    post err : ∀ acc,
  Forall (λ t,
            ∃ cl, connect ctx
                    (subscription_path (Project conf) (Region conf) t)
                    settings (ClientOpts conf) = inl cl) pre →
  connect ctx (subscription_path (Project conf) (Region conf) topic)
    settings (ClientOpts conf) = inr err →
  newConsumers connect ctx conf lg dec proc settings
    (pre ++ topic :: post) acc
  = inr (wrapError "pubsublite: failed creating consumer" err).
Proof.
  induction pre as [|t pre IH]; intros acc Hpre Hfail; cbn [newConsumers app].
  - unfold subscription_path in Hfail. by rewrite Hfail.
  - apply Forall_cons in Hpre as [[cl Hc] Hpre].
    unfold subscription_path in Hc. rewrite Hc. by apply IH.
Qed.

Lemma Validate_None_collaborators conf :
  Validate conf = None →
  ∃ lg dec proc,
    cfgLogger conf = Some lg ∧ cfgDecoder conf = Some dec
    ∧ cfgProcessor conf = Some proc.
Proof.
  intros Hv. pose proof (proj1 (Validate_None_all_met conf) Hv) as Hall.
  pose proof (Hall ReqLogger) as Hl. pose proof (Hall ReqDecoder) as Hd.
  pose proof (Hall ReqProcessor) as Hp. simpl in Hl, Hd, Hp.
  destruct (cfgLogger conf) as [lg|], (cfgDecoder conf) as [dec|],
    (cfgProcessor conf) as [proc|]; try done.
  by exists lg, dec, proc.
Qed.

(** The consumer [NewConsumer] returns, field by field. *)
Lemma NewConsumer_made ctx conf c :
  newConsumer ctx conf = inl c →
  Validate conf = None
  ∧ mu c = false ∧ stopSubscriber c = None
  ∧ tracer c
    = tracerOf (default globalTracerProvider (cfgTracerProvider conf))
        "pubsublite"
  ∧ ∃ lg dec proc,
      cfgLogger conf = Some lg ∧ cfgDecoder conf = Some dec
      ∧ cfgProcessor conf = Some proc
      ∧ cfgLogger (cfg c) = Some (Named lg "pubsublite")
      ∧ Forall2
          (λ topic (sub : consumerT),
             connect ctx
               (subscription_path (Project conf) (Region conf) topic)
               {| NackHandler := nackHandler parse (Named lg "pubsublite") |}
               (ClientOpts conf) = inl (SubscriberClient sub)
             ∧ delivery sub = Delivery conf
             ∧ decoder sub = dec ∧ processor sub = proc
             ∧ logger sub
               = With (Named lg "pubsublite")
                   [zapString "subscription" topic;
                    zapString "region" (Region conf);
                    zapString "project" (Project conf)])
          (Topics conf) (consumers c).
Proof.
  unfold NewConsumer. intros Hnew.
  destruct (Validate conf) as [e|] eqn:Hv; [done|].
  destruct (Validate_None_collaborators conf Hv)
    as (lg & dec & proc & Hl & Hd & Hp).
  rewrite Hl, Hd, Hp in Hnew.
  destruct (newConsumers _ _ _ _ _ _ _ _ _) as [cs|e] eqn:Hcs; [|done].
  injection Hnew as <-. cbn [mu stopSubscriber tracer cfg consumers].
  apply newConsumers_shape in Hcs as (new & -> & Hnew).
  repeat (split; [done|]).
  exists lg, dec, proc. repeat (split; [done|]). exact Hnew.
Qed.

(** X10. A consumer made by [NewConsumer] comes from a valid
    configuration and has never been run; it holds one per-subscription
    consumer for each topic, in the order of the topics, each connected
    to "projects/P/locations/R/subscriptions/T" with the client options
    of the configuration, and each with the delivery type, the decoder
    and the processor of the configuration and a logger named
    "pubsublite" with the subscription, region and project as fields.
    The tracer is that of the configured provider, or of the global one
    when none is configured. *)
Theorem NewConsumer_one_consumer_per_topic ctx conf c :
  newConsumer ctx conf = inl c →
  Validate conf = None
  ∧ mu c = false ∧ stopSubscriber c = None
  ∧ tracer c
    = tracerOf (default globalTracerProvider (cfgTracerProvider conf))
        "pubsublite"
  ∧ ∃ lg dec proc,
      cfgLogger conf = Some lg ∧ cfgDecoder conf = Some dec
      ∧ cfgProcessor conf = Some proc
      ∧ cfgLogger (cfg c) = Some (Named lg "pubsublite")
      ∧ Forall2
          (λ topic (sub : consumerT),
             connect ctx
               (subscription_path (Project conf) (Region conf) topic)
               {| NackHandler := nackHandler parse (Named lg "pubsublite") |}
               (ClientOpts conf) = inl (SubscriberClient sub)
             ∧ delivery sub = Delivery conf
             ∧ decoder sub = dec ∧ processor sub = proc
             ∧ logger sub
               = With (Named lg "pubsublite")
                   [zapString "subscription" topic;
                    zapString "region" (Region conf);
                    zapString "project" (Project conf)])
          (Topics conf) (consumers c).
Proof. apply NewConsumer_made. Qed.

(** X11. [NewConsumer] returns a consumer exactly when the configuration
    passes [Validate] and the transport gives a client for every
    topic. *)
Theorem NewConsumer_succeeds_iff ctx conf lg :
  cfgLogger conf = Some lg →
  (∃ c, newConsumer ctx conf = inl c)
  ↔ Validate conf = None
    ∧ Forall
        (λ topic,
           ∃ cl,
             connect ctx
               (subscription_path (Project conf) (Region conf) topic)
               {| NackHandler := nackHandler parse (Named lg "pubsublite") |}
               (ClientOpts conf) = inl cl)
        (Topics conf).
Proof.
  intros Hl. split.
  - intros [c Hc].
    destruct (NewConsumer_made ctx conf c Hc)
      as (Hv & _ & _ & _ & lg' & dec & proc & Hl' & _ & _ & _ & Hall).
    split; [done|]. rewrite Hl in Hl'. injection Hl' as <-.
    induction Hall as [|topic sub topics subs [Hc' _] _ IH];
      constructor; eauto.
  - intros [Hv Hall]. unfold NewConsumer. rewrite Hv.
    destruct (Validate_None_collaborators conf Hv)
      as (lg' & dec & proc & Hl' & Hd & Hp).
    rewrite Hl', Hd, Hp. rewrite Hl in Hl'. injection Hl' as <-.
    destruct (newConsumers_connects ctx (set_cfgLogger (Named lg "pubsublite") conf)
                (Named lg "pubsublite") dec proc
                {| NackHandler := nackHandler parse (Named lg "pubsublite") |}
                (Topics conf) [] Hall) as [cs Hcs].
    cbn [Topics set_cfgLogger]. rewrite Hcs. by eexists.
Qed.

(** X12. [NewConsumer] stops at the first topic the transport refuses:
    the clients of the topics before it are made, those after it are not
    asked for, and the error returned wraps that of the transport as
    "pubsublite: failed creating consumer". *)
Theorem NewConsumer_first_refused_topic ctx conf lg pre topic post err :
  Validate conf = None →
  cfgLogger conf = Some lg →
  Topics conf = pre ++ topic :: post →
  Forall
    (λ t,
       ∃ cl,
         connect ctx (subscription_path (Project conf) (Region conf) t)
           {| NackHandler := nackHandler parse (Named lg "pubsublite") |}
           (ClientOpts conf) = inl cl) pre →
  connect ctx (subscription_path (Project conf) (Region conf) topic)
    {| NackHandler := nackHandler parse (Named lg "pubsublite") |}
    (ClientOpts conf) = inr err →
  newConsumer ctx conf
  = inr (wrapError "pubsublite: failed creating consumer" err).
Proof.
  intros Hv Hl Htopics Hpre Hfail. unfold NewConsumer. rewrite Hv.
  destruct (Validate_None_collaborators conf Hv)
    as (lg' & dec & proc & Hl' & Hd & Hp).
  rewrite Hl', Hd, Hp. rewrite Hl in Hl'. injection Hl' as <-.
  cbn [Topics set_cfgLogger]. rewrite Htopics.
  by rewrite (newConsumers_first_failure ctx
                (set_cfgLogger (Named lg "pubsublite") conf)
                (Named lg "pubsublite") dec proc _ pre topic post err []
                Hpre Hfail).
Qed.

(** X13. [Close] after [Run]: the first call of [Run] starts one loop for
    each per-subscription consumer, and a later [Close] returns nil and
    cancels the context [Run] derived from its argument, which is the
    parent of the context the loops receive under; a second [Close] does
    the same again. *)
Theorem Close_after_Run_cancels c ctx order fuel :
  mu c = false →
  stopSubscriber c = None →
  let ran := after (Run Receive c ctx order fuel) in
  started (Run Receive c ctx order fuel) = consumers c
  ∧ Close ran = (ran, Returned None, [ctxWithCancel ctx])
  ∧ Close (Close ran).1.1 = (ran, Returned None, [ctxWithCancel ctx]).
Proof.
  destruct c as [m cf cs stop tr]. cbn [mu stopSubscriber].
  intros -> ->. cbv zeta. repeat split; reflexivity.
Qed.

(** X14. [Close] and [Run] give the mutex back on every path, the panic
    of [Close] included: after the call the mutex is held exactly if it
    was before (in which case the call did not get past [Lock]). *)
Theorem mutex_is_released c ctx order fuel :
  mu (Close c).1.1 = mu c
  ∧ mu (after (Run Receive c ctx order fuel)) = mu c.
Proof.
  destruct c as [[] cf cs [stop|] tr]; split; reflexivity.
Qed.

(** X15. While the backend of one subscription stays unavailable, [Run]
    does not return: however many calls of [Receive] the loops are
    given, and whatever the other loops do. *)
Theorem Run_waits_while_unavailable c ctx order fuel (sub : consumerT) :
  mu c = false →
  stopSubscriber c = None →
  sub ∈ consumers c →
  (∀ i, errors_Is_unavailable
          (Receive (SubscriberClient sub)
             (ctxErrgroup (ctxWithCancel ctx)) i) = true) →
  returned (Run Receive c ctx order fuel) = Blocked.
Proof.
  destruct c as [m cf cs stop tr]. cbn [mu stopSubscriber consumers].
  intros -> -> Hin Hun. unfold Run.
  cbn [mu stopSubscriber consumers set_mu set_stopSubscriber returned].
  destruct (mapM id _) as [results|] eqn:Hm; [|done].
  apply mapM_Some_1 in Hm.
  apply list_elem_of_lookup in Hin as [i Hi].
  assert (((λ cs0 : consumerT,
              receive_loop Receive fuel (SubscriberClient cs0)
                (ctxErrgroup (ctxWithCancel ctx)) 0) <$> cs) !! i
          = Some None) as Hloop.
  { rewrite list_lookup_fmap, Hi. cbn.
    by rewrite (receive_loop_goes_on Receive _ _ Hun). }
  destruct (Forall2_lookup_l _ _ _ _ _ Hm Hloop) as (y & _ & Hy).
  discriminate Hy.
Qed.

Lemma receive_loop_last_call fuel cl ctx : ∀ n r calls,
  receive_loop Receive fuel cl ctx n = Some (r, calls) →
  ∃ k, calls = S k ∧ (n ≤ k)%nat ∧ r = Receive cl ctx k
       ∧ ∀ i, (n ≤ i < k)%nat →
              errors_Is_unavailable (Receive cl ctx i) = true.
Proof.
  induction fuel as [|fuel IH]; intros n r calls; cbn [receive_loop];
    [done|].
  destruct (errors_Is_unavailable (Receive cl ctx n)) eqn:Hun.
  - intros Hrest. apply IH in Hrest as (k & -> & Hk & -> & Hbefore).
    exists k. repeat split; [lia|]. intros i Hi.
    destruct (decide (i = n)) as [->|]; [done|]. apply Hbefore. lia.
  - intros [= <- <-]. exists n. repeat split; [lia|]. intros i Hi. lia.
Qed.

(** X16. An error returned by the first call of [Run] is the value some
    per-subscription consumer got from its last call of [Receive], all
    its earlier calls having reported the backend unavailable: [Run]
    makes up no error of its own and passes the error on unwrapped. *)
Theorem Run_returns_a_Receive_error c ctx order fuel e :
  mu c = false →
  stopSubscriber c = None →
  returned (Run Receive c ctx order fuel) = Returned (Some e) →
  ∃ (sub : consumerT) k,
    sub ∈ consumers c
    ∧ Receive (SubscriberClient sub) (ctxErrgroup (ctxWithCancel ctx)) k
      = Some e
    ∧ ∀ i, (i < k)%nat →
           errors_Is_unavailable
             (Receive (SubscriberClient sub)
                (ctxErrgroup (ctxWithCancel ctx)) i) = true.
Proof.
  destruct c as [m cf cs stop tr]. cbn [mu stopSubscriber consumers].
  intros -> ->. unfold Run.
  cbn [mu stopSubscriber consumers set_mu set_stopSubscriber returned].
  destruct (mapM id _) as [results|] eqn:Hm; [|done].
  intros [= Hfe].
  apply (first_error_elem), list_elem_of_omap in Hfe as (i & _ & Hi).
  destruct (results !! i) as [[r n]|] eqn:Hr; simplify_eq/=.
  apply mapM_Some_1 in Hm.
  destruct (Forall2_lookup_r _ _ _ _ _ Hm Hr) as (x & Hx & Hloop).
  apply list_lookup_fmap_Some in Hx as (sub & -> & Hsub). simpl in Hloop.
  apply receive_loop_last_call in Hloop as (k & _ & _ & Hlast & Hbefore).
  exists sub, k. split; [by eapply list_elem_of_lookup_2|].
  split; [done|]. intros j Hj. apply Hbefore. lia.
Qed.

(** X17. When every loop ends with a nil result of [Receive] (as after a
    cancellation the transport reports as nil), [Run] returns nil,
    whatever the order in which the loops end. *)
Theorem Run_returns_nil_when_loops_do c ctx order fuel :
  mu c = false →
  stopSubscriber c = None →
  Forall
    (λ sub : consumerT,
       ∃ calls,
         receive_loop Receive fuel (SubscriberClient sub)
           (ctxErrgroup (ctxWithCancel ctx)) 0 = Some (None, calls))
    (consumers c) →
  returned (Run Receive c ctx order fuel) = Returned None.
Proof.
  destruct c as [m cf cs stop tr]. cbn [mu stopSubscriber consumers].
  intros -> -> Hall. unfold Run.
  cbn [mu stopSubscriber consumers set_mu set_stopSubscriber returned].
  destruct (mapM id _) as [results|] eqn:Hm.
  - f_equal. destruct (first_error _) as [e|] eqn:Hfe; [|done].
    apply (first_error_elem), list_elem_of_omap in Hfe as (i & _ & Hi).
    destruct (results !! i) as [[r n]|] eqn:Hr; simplify_eq/=.
    apply mapM_Some_1 in Hm.
    destruct (Forall2_lookup_r _ _ _ _ _ Hm Hr) as (x & Hx & Hloop).
    apply list_lookup_fmap_Some in Hx as (sub & -> & Hsub).
    simpl in Hloop.
    destruct (proj1 (Forall_lookup _ _) Hall _ _ Hsub) as [calls Hnil].
    congruence.
  - apply mapM_None in Hm. apply Exists_exists in Hm as (x & Hx & Hnone).
    apply list_elem_of_fmap in Hx as (sub & -> & Hsub).
    destruct (proj1 (Forall_forall _ _) Hall _ Hsub) as [calls Hnil].
    simpl in Hnone. congruence.
Qed.

End LifecycleFacts.

(** * Further properties of the SASL mechanism *)

Lemma string_length_app (s t : string) :
  String.length (s +:+ t) = (String.length s + String.length t)%nat.
Proof. induction s as [|a s IH]; simpl; [done|]. f_equal. exact IH. Qed.

Lemma string_app_inv_tail (t : string) : ∀ s1 s2 : string,
  s1 +:+ t = s2 +:+ t → s1 = s2.
Proof.
  induction s1 as [|a s1 IH]; intros [|b s2] Heq.
  - done.
  - apply (f_equal String.length) in Heq.
    rewrite !string_length_app in Heq. simpl in Heq. lia.
  - apply (f_equal String.length) in Heq.
    rewrite !string_length_app in Heq. simpl in Heq. lia.
  - injection Heq as -> Heq. f_equal. by apply IH.
Qed.

(** X18. The scope a mechanism asks for names its namespace and no
    other: the mechanisms of two namespaces make the same request
    exactly when the namespaces are equal. *)
Theorem scope_identifies_namespace
    (cred1 cred2 : saslazure.TokenCredential) (ns1 ns2 : string)
    (ctx1 ctx2 : Ctx) :
  saslazure.requests (saslazure.NewFromCredential cred1 ns1 ctx1)
  = saslazure.requests (saslazure.NewFromCredential cred2 ns2 ctx2)
  ↔ ns1 = ns2.
Proof.
  unfold saslazure.NewFromCredential, saslazure.Oauth, saslazure.scope_of.
  cbv zeta.
  destruct (cred1 ctx1 _) as [t1 e1], (cred2 ctx2 _) as [t2 e2].
  cbn [saslazure.requests]. split; [|by intros ->].
  intros [= Heq]. apply (inj (String.app _)) in Heq.
  by apply string_app_inv_tail in Heq.
Qed.

(** * The further properties at the instances *)

Lemma keeps_other_entries_witness :
  failed
    (state_after
       (processMessage Fixture.parse (Fixture.sub AtLeastOnceDeliveryType)
          (ctxRoot "receive") Fixture.msg)
       {| failed := {["3:41" := 2]}; procState := [Fixture.boom] |})
  !! "3:41"
  = Some 2.
Proof.
  rewrite (processMessage_keeps_other_entries Fixture.parse
             (Fixture.sub AtLeastOnceDeliveryType) (ctxRoot "receive")
             Fixture.msg _ "3:41").
  - reflexivity.
  - discriminate.
Defined.

Lemma keeps_tracker_ok_witness :
  tracker_ok
    (failed
       (state_after
          (processMessage Fixture.parse (Fixture.sub AtLeastOnceDeliveryType)
             (ctxRoot "receive") Fixture.msg)
          (Fixture.world [Fixture.boom]))).
Proof.
  apply (processMessage_keeps_tracker_ok Fixture.parse
           (Fixture.sub AtLeastOnceDeliveryType) (ctxRoot "receive")
           Fixture.msg (Fixture.world [Fixture.boom])).
  apply map_Forall_empty.
Defined.

Lemma acks_only_success_witness :
  ack_events
    (effects_of
       (processMessage Fixture.parse (Fixture.sub AtLeastOnceDeliveryType)
          (ctxRoot "receive") Fixture.msg) (Fixture.world []))
  = [EvAck "3:42"].
Proof.
  exact (at_least_once_acks_only_success Fixture.parse
           (Fixture.sub AtLeastOnceDeliveryType) (ctxRoot "receive")
           Fixture.msg (Fixture.world []) eq_refl eq_refl).
Defined.

Lemma tracker_untouched_witness :
  failed
    (state_after
       (processMessage Fixture.parse (Fixture.sub AtMostOnceDeliveryType)
          (ctxRoot "receive") Fixture.msg) (Fixture.world [Fixture.boom]))
  = ∅.
Proof.
  refine (proj1 (tracker_used_by_at_least_once_only Fixture.parse
                   (Fixture.sub AtMostOnceDeliveryType) (ctxRoot "receive")
                   Fixture.msg (Fixture.world [Fixture.boom]) _)).
  discriminate.
Defined.

Lemma unknown_delivery_witness :
  ack_events
    (effects_of
       (processMessage Fixture.parse (Fixture.sub (otherDeliveryType 9))
          (ctxRoot "receive") Fixture.msg) (Fixture.world []))
  = [].
Proof.
  exact (proj1 (unknown_delivery_never_settles Fixture.parse
                  (Fixture.sub (otherDeliveryType 9)) (ctxRoot "receive")
                  Fixture.msg (Fixture.world []) 9 eq_refl eq_refl)).
Defined.

(** Seven deliveries to the processor that is down: two [Nack]s, and a
    count of 1 at the end. *)
Lemma seven_failing_deliveries_witness :
  failed
    (state_after
       (deliver_times Fixture.parse Scenario.sub (ctxRoot "receive")
          Fixture.msg 7) (Scenario.world ∅)) !! "3:42" = Some 1
  ∧ nacks "3:42"
      (effects_of
         (deliver_times Fixture.parse Scenario.sub (ctxRoot "receive")
            Fixture.msg 7) (Scenario.world ∅)) = 2%nat.
Proof.
  pose proof (failing_deliveries_nack_every_third Fixture.parse Scenario.sub
                (ctxRoot "receive") Fixture.msg (Scenario.world ∅) 7
                eq_refl eq_refl) as H.
  refine ((λ H', conj (proj1 H') (proj1 (proj2 H'))) (H _ _)).
  - intros ps ctx' batch. eexists. reflexivity.
  - reflexivity.
Defined.

Lemma any_schedule_witness :
  tracker_ok
    (failed
       (state_after
          (run_schedule (APMEvent := list byte) Fixture.msg
             [0; 1; 1; 0]%nat [pcLoadOrStore; pcLoadOrStore])
          (Fixture.world []))).
Proof.
  refine (proj1 (any_schedule_keeps_tracker_ok Fixture.msg [0; 1; 1; 0]%nat
                   [pcLoadOrStore; pcLoadOrStore] (Fixture.world []) _ _)).
  - apply map_Forall_empty.
  - repeat constructor.
Defined.

Lemma NewConsumer_shape_witness :
  ∃ c, Fixture.newConsumer = inl c
       ∧ length (consumers c) = 1%nat ∧ stopSubscriber c = None.
Proof.
  eexists. split; [reflexivity|].
  match goal with
  | |- length (consumers ?c) = _ ∧ _ =>
      pose proof (NewConsumer_one_consumer_per_topic (Tracer := string * string)
                    Fixture.parse Fixture.connect "global" Fixture.tracerOf
                    (ctxRoot "main") Fixture.config c eq_refl)
        as (_ & _ & Hstop & _ & lg & dec & proc & _ & _ & _ & _ & Hall)
  end.
  split; [|exact Hstop].
  symmetry. exact (Forall2_length _ _ _ Hall).
Defined.

Lemma NewConsumer_succeeds_witness : ∃ c, Fixture.newConsumer = inl c.
Proof.
  apply (proj2 (NewConsumer_succeeds_iff (Tracer := string * string)
                  Fixture.parse Fixture.connect "global" Fixture.tracerOf
                  (ctxRoot "main") Fixture.config Fixture.log eq_refl)).
  split; [reflexivity|].
  repeat constructor. eexists. reflexivity.
Defined.

(** The transport of the scenario knows "t" and refuses "gone". *)
Lemma NewConsumer_refused_witness :
  NewConsumer (Tracer := string * string) Fixture.parse Scenario.connect
    "global" Fixture.tracerOf (ctxRoot "main")
    (Scenario.config ["t"; "gone"; "u"])
  = inr (wrapError "pubsublite: failed creating consumer"
           (otherError "not found")).
Proof.
  apply (NewConsumer_first_refused_topic (Tracer := string * string)
           Fixture.parse Scenario.connect "global" Fixture.tracerOf
           (ctxRoot "main") (Scenario.config ["t"; "gone"; "u"])
           Fixture.log ["t"] "gone" ["u"] (otherError "not found")).
  - reflexivity.
  - reflexivity.
  - reflexivity.
  - repeat constructor. eexists. reflexivity.
  - reflexivity.
Defined.

Lemma Close_after_Run_witness :
  (Close (after (Run Fixture.receive Fixture.supervisor (ctxRoot "main")
                   [0%nat] 5))).1.2
  = Returned None.
Proof.
  pose proof (Close_after_Run_cancels Fixture.receive Fixture.supervisor
                (ctxRoot "main") [0%nat] 5 eq_refl eq_refl) as (_ & H & _).
  cbv zeta in H. rewrite H. reflexivity.
Defined.

Lemma Run_waits_witness :
  returned (Run Scenario.unavailable Fixture.supervisor (ctxRoot "main")
              [0%nat] 1000)
  = Blocked.
Proof.
  apply (Run_waits_while_unavailable Scenario.unavailable Fixture.supervisor
           (ctxRoot "main") [0%nat] 1000
           (Fixture.sub AtLeastOnceDeliveryType)).
  - reflexivity.
  - reflexivity.
  - left.
  - intros i. reflexivity.
Defined.

Lemma Run_error_witness :
  ∃ sub k,
    sub ∈ consumers Fixture.supervisor
    ∧ Fixture.receive (SubscriberClient sub)
        (ctxErrgroup (ctxWithCancel (ctxRoot "main"))) k
      = Some (otherError "subscriber stopped").
Proof.
  destruct (Run_returns_a_Receive_error Fixture.receive Fixture.supervisor
              (ctxRoot "main") [0%nat] 5 (otherError "subscriber stopped")
              eq_refl eq_refl eq_refl) as (sub & k & Hin & Hlast & _).
  exists sub, k. split; [exact Hin|exact Hlast].
Defined.

Lemma Run_nil_witness :
  returned (Run Scenario.cancelled Fixture.supervisor (ctxRoot "main")
              [0%nat] 1)
  = Returned None.
Proof.
  apply (Run_returns_nil_when_loops_do Scenario.cancelled Fixture.supervisor
           (ctxRoot "main") [0%nat] 1).
  - reflexivity.
  - reflexivity.
  - repeat constructor. eexists. reflexivity.
Defined.

(** * Two compositions *)

Section Compositions.

Context {APMEvent PS Client ClientOption TracerProvider Tracer : Type}.

Variable parse : string → option MessageMetadata.
Variable connect :
  Ctx → string → @ReceiveSettings APMEvent PS → list ClientOption
  → Client + error.
Variable globalTracerProvider : TracerProvider.
Variable tracerOf : TracerProvider → string → Tracer.

(** X19. [NewConsumer] on a configuration that violates a requirement
    returns, whatever the transport would answer, the error "pubsublite:
    invalid consumer config" around the join of the entries of all the
    violated requirements. *)
Theorem NewConsumer_reports_every_violation ctx
    (conf : @Config APMEvent PS ClientOption TracerProvider) :
  violated conf ≠ [] →
  NewConsumer (Tracer := Tracer) parse connect globalTracerProvider
    tracerOf ctx conf
  = inr (wrapError "pubsublite: invalid consumer config"
           (joinError (entry <$> violated conf))).
Proof.
  intros Hv. unfold NewConsumer, Validate, errors_Join.
  rewrite omap_id_Some, Validate_errs_violated.
  destruct (violated conf) as [|r rs]; [done|]. reflexivity.
Qed.

(** X20. The retry count is that of the current run of failures: under
    at-least-once delivery a success removes the entry whatever it held,
    so that a failure of the next delivery of the same message is
    counted as the first, with no [Nack]. *)
Theorem success_resets_retry_count (c : @consumer APMEvent PS Client)
    ctx1 ctx2 msg (w1 w2 : @World PS) :
  delivery c = AtLeastOnceDeliveryType →
  (decoder c (Data msg)).2 = None →
  (processor c (procState w1) (ctxWithMetadata ctx1 (Attributes msg))
     [(decoder c (Data msg)).1]).2 = None →
  failed w2 !! ID msg
  = failed (state_after (processMessage parse c ctx1 msg) w1) !! ID msg →
  processing_fails c ctx2 msg w2 →
  failed (state_after (processMessage parse c ctx2 msg) w2) !! ID msg
  = Some 1
  ∧ nacks (ID msg) (effects_of (processMessage parse c ctx2 msg) w2)
    = 0%nat.
Proof.
  intros Hdel Hdec Hok Hsame Hfail.
  destruct (success_acks_and_forgets parse c ctx1 msg w1 Hdel Hdec Hok)
    as [_ Hgone].
  pose proof (failed_attempt parse c ctx2 msg w2 Hdel Hdec Hfail) as Hstep.
  cbv zeta in Hstep. rewrite Hsame, Hgone in Hstep.
  destruct Hstep as (H1 & _ & H2). done.
Qed.

End Compositions.

Lemma reports_every_violation_witness :
  NewConsumer (Tracer := string * string) Fixture.parse Fixture.connect
    "global" Fixture.tracerOf (ctxRoot "main") (Scenario.config [])
  = inr (wrapError "pubsublite: invalid consumer config"
           (joinError
              [errorString "pubsublite: at least one topic must be set"])).
Proof.
  apply (NewConsumer_reports_every_violation (Tracer := string * string)
           Fixture.parse Fixture.connect "global" Fixture.tracerOf
           (ctxRoot "main") (Scenario.config [])).
  discriminate.
Defined.

(** A count of 2, a success, then a failure: the count is 1. *)
Lemma success_resets_witness :
  let c := Fixture.sub AtLeastOnceDeliveryType in
  let run := processMessage Fixture.parse c (ctxRoot "receive") Fixture.msg in
  let w1 := {| failed := {["3:42" := 2]}; procState := [None; Fixture.boom] |}
  in
  failed (state_after run (state_after run w1)) !! "3:42" = Some 1.
Proof.
  intros c run w1.
  refine (proj1 (success_resets_retry_count Fixture.parse c
                   (ctxRoot "receive") (ctxRoot "receive") Fixture.msg w1
                   (state_after run w1) eq_refl eq_refl eq_refl eq_refl _)).
  vm_compute. eexists. reflexivity.
Defined.
